(** * stylist: the command-line driver ([stylist/__main__.py])

    A shallow embedding of the orchestration layer of the stylist style
    checker: style selection, registration of extension pipelines, the
    work-list traversal of files and directories, the report, and the
    exit status of the tool.

    Python objects that the driver mutates (the [SourceFactory] class-level
    registry, the list object holding the candidate paths, the two output
    streams) live in an explicit [World]; the driver's functions are
    written in a small state-and-exception monad over it.  The [while]
    loop of [__process] need not terminate on every file system, so looping
    code takes a fuel argument and the monad can answer [None] (fuel
    exhausted). *)

From Stdlib Require Import String Ascii List Arith Lia DecimalString.
From stdpp Require Import gmap strings list fin_maps.

Local Open Scope string_scope.
Local Open Scope list_scope.

(** ** Data model *)

Abbreviation Path := string (only parsing).

(** Python object identity of a list object. *)
Abbreviation loc := nat (only parsing).

(** Modelled from the spec: the [Style] type of [stylist.style] is not part
    of the driver; the spec gives it a name and an ordered list of rules. *)
Record Style := mkStyle {
  style_name : string;
  style_rules : list string
}.

(** Modelled from the spec: the [Issue] type of [stylist.issue]; a file
    path, optional line and column, rule identity, severity and message. *)
Inductive Severity := warning | error.

Record Issue := mkIssue {
  issue_path : Path;
  issue_line : option nat;
  issue_column : option nat;
  issue_rule : string;
  issue_severity : Severity;
  issue_message : string
}.

(** Modelled from the spec: a pipeline descriptor, one parser key and the
    preprocessor keys in application order ([FilePipe] in the driver). *)
Record FilePipe := mkFilePipe {
  parser : string;
  preprocessors : list string
}.

(** [Configuration]: the driver reads [styles] (a dict from style name to
    style) and [file_pipes] (a dict iterated with [items()], kept in
    insertion order). *)
Record Configuration := mkConfiguration {
  styles : gmap string Style;
  file_pipes : list (string * FilePipe)
}.

Inductive Exception :=
| StylistException (message : string)
| UnknownKeyError (key : string)
| MalformedDescriptorError (text : string)
| NoStyleSelectedError
| CheckError (file : Path) (message : string)
| ConfigurationError (message : string)
| IndexError (message : string)
| ValueError
| SystemExit (code : nat).

Inductive Result (A : Type) :=
| Return (a : A)
| Raise (e : Exception).
Arguments Return {A} a.
Arguments Raise {A} e.

Inductive Stream := Stdout | Stderr.

Inductive LogLevel := INFO | WARNING.

(** What the driver does to the outside, in program order. *)
Inductive Event :=
| AddHandler
| SetLevel (level : LogLevel)
| AddExtension (extension : string) (pipe : FilePipe)
| NewCheckEngine (styles : list Style)
| IterDir (directory : Path)
| Check (file : Path)
| Print (stream : Stream) (line : string).

Record World := mkWorld {
  extensions : gmap string FilePipe;
  lists : gmap loc (list Path);
  log : list Event
}.

(** The collaborators the driver calls but does not define: [pathlib]
    ([is_dir], [iterdir], [suffix]), the plugin registry (its keys),
    [CheckEngine.check], [Issue.__str__] and [load_configuration]. *)
Record Host := mkHost {
  is_dir : Path -> bool;
  iterdir : Path -> list Path;
  suffix : Path -> string;
  parser_keys : list string;
  preprocessor_keys : list string;
  engine_check : list Style -> gmap string FilePipe -> Path
                 -> Result (list Issue);
  issue_str : Issue -> string;
  load_configuration : option Path -> Result Configuration
}.

(** ** The state-and-exception monad *)

Definition M (A : Type) : Type := World -> option (Result A * World).

Definition ret {A} (a : A) : M A := fun w => Some (Return a, w).

Definition raise {A} (e : Exception) : M A := fun w => Some (Raise e, w).

Definition bind {A B} (m : M A) (f : A -> M B) : M B :=
  fun w =>
    match m w with
    | None => None
    | Some (Raise e, w') => Some (Raise e, w')
    | Some (Return a, w') => f a w'
    end.

Definition out_of_fuel {A} : M A := fun _ => None.

Declare Scope driver_scope.
Delimit Scope driver_scope with driver.
Notation "x <- m ;; k" := (bind m (fun x => k))
  (at level 100, m at next level, right associativity) : driver_scope.
Notation "m ;; k" := (bind m (fun _ => k))
  (at level 100, right associativity) : driver_scope.
Local Open Scope driver_scope.

Definition lift {A} (r : Result A) : M A := fun w => Some (r, w).

Definition emit (ev : Event) : M unit :=
  fun w => Some (Return tt,
                 mkWorld (extensions w) (lists w) (log w ++ [ev])).

Definition get_list (l : loc) : M (list Path) :=
  fun w => Some (Return (default [] (lists w !! l)), w).

Definition set_list (l : loc) (v : list Path) : M unit :=
  fun w => Some (Return tt,
                 mkWorld (extensions w) (<[l := v]> (lists w)) (log w)).

(** [for x in xs: body x] *)
Fixpoint for_each {A} (xs : list A) (body : A -> M unit) : M unit :=
  match xs with
  | [] => ret tt
  | x :: rest => body x ;; for_each rest body
  end.

(** ** SourceFactory and ConfigTools *)

(** [s.split(':')] *)
Fixpoint split_colon_aux (s : string) (current : string) : list string :=
  match s with
  | EmptyString => [current]
  | String c rest =>
      if Ascii.eqb c ":"%char
      then current :: split_colon_aux rest EmptyString
      else split_colon_aux rest (current +:+ String c EmptyString)
  end.

Definition split_colon (s : string) : list string :=
  split_colon_aux s EmptyString.

(** Modelled from the spec: [ConfigTools.parse_pipe_description], the
    textual form [EXTENSION:PARSER[:PREPROCESSOR]...]; fewer than two
    colon-delimited tokens is a malformed descriptor. *)
Definition parse_pipe_description (mapping : string)
  : Result (string * FilePipe) :=
  match split_colon mapping with
  | extension :: parser_key :: preprocs =>
      Return (extension, mkFilePipe parser_key preprocs)
  | _ => Raise (MalformedDescriptorError mapping)
  end.

(** ** The key tables of [__parse_cli] *)

(** [max(len(key) for key in keys)]; [None] stands for the [ValueError]
    that [max] raises on an empty sequence. *)
Definition max_key_len (keys : list string) : option nat :=
  match keys with
  | [] => None
  | first :: rest =>
      Some (foldl Nat.max (String.length first)
                  (List.map String.length rest))
  end.

(** [' ' * n] *)
Fixpoint spaces (n : nat) : string :=
  match n with
  | O => EmptyString
  | S n' => String " "%char (spaces n')
  end.

(** [s.ljust(width)] *)
Definition ljust (s : string) (width : nat) : string :=
  s +:+ spaces (width - String.length s).

(** Lines 34-38, and again lines 39-43: one line per key, the key padded
    to the width of the longest. *)
Definition key_table (keys : list string) (get_name : string -> string)
  : option (list string) :=
  match max_key_len keys with
  | None => None
  | Some width =>
      Some (List.map (fun key => ljust key width +:+ " - " +:+ get_name key)
                     keys)
  end.

(** Lines 34-43: the table of parsers, then the table of preprocessors. *)
Definition help_tables (language_keys : list string)
    (language_name : string -> string) (preprocessor_keys : list string)
    (preprocessor_name : string -> string)
  : option (list string * list string) :=
  match key_table language_keys language_name with
  | None => None
  | Some parsers =>
      match key_table preprocessor_keys preprocessor_name with
      | None => None
      | Some preproc => Some (parsers, preproc)
      end
  end.

Section Driver.

Context (host : Host).

(** Modelled from the spec: the first key of the descriptor that the plugin
    registry cannot resolve, parser first. *)
Definition unknown_key (pipe : FilePipe) : option string :=
  if bool_decide (parser pipe ∈ parser_keys host)
  then List.find (fun k => negb (bool_decide (k ∈ preprocessor_keys host)))
                 (preprocessors pipe)
  else Some (parser pipe).

(** Modelled from the spec: [SourceFactory.add_extension] validates the
    keys of the descriptor against the plugin registry, then stores or
    overwrites the mapping of the extension. *)
Definition add_extension (extension : string) (pipe : FilePipe) : M unit :=
  emit (AddExtension extension pipe) ;;
  match unknown_key pipe with
  | Some key => raise (UnknownKeyError key)
  | None =>
      fun w => Some (Return tt,
                     mkWorld (<[extension := pipe]> (extensions w))
                             (lists w) (log w))
  end.

(** Modelled from the spec: [SourceFactory.get_extensions], the extensions
    that have a pipeline. *)
Definition get_extensions : M (gset string) :=
  fun w => Some (Return (dom (extensions w)), w).

(** Modelled from the spec: [CheckEngine(styles)]; the engine requires a
    non-empty style set. *)
Definition new_check_engine (styles : list Style) : M (list Style) :=
  emit (NewCheckEngine styles) ;;
  match styles with
  | [] => raise NoStyleSelectedError
  | _ => ret styles
  end.

(** [engine.check(file_object)] *)
Definition check (engine : list Style) (file_object : Path)
  : M (list Issue) :=
  emit (Check file_object) ;;
  fun w => Some (engine_check host engine (extensions w) file_object, w).

(** ** [__process] *)

(** [s[1:]] *)
Definition drop_first (s : string) : string :=
  match s with
  | EmptyString => EmptyString
  | String _ rest => rest
  end.

(** The test of lines 101-102. *)
Definition wanted (hot_extensions : gset string) (leaf_filename : Path)
  : bool :=
  bool_decide (drop_first (suffix host leaf_filename) ∈ hot_extensions)
  || is_dir host leaf_filename.

(** [candidates.append(leaf_filename)] *)
Definition append (candidates : loc) (leaf_filename : Path) : M unit :=
  current <- get_list candidates ;;
  set_list candidates (current ++ [leaf_filename]).

(** One turn of the loop, lines 98-105: [pop(0)], then descend or check. *)
Definition loop_body (engine : list Style) (hot_extensions : gset string)
    (candidates : loc) (issues : list Issue) : M (list Issue) :=
  current <- get_list candidates ;;
  match current with
  | [] => raise (IndexError "pop from empty list")
  | file_object :: rest =>
      set_list candidates rest ;;
      if is_dir host file_object
      then
        emit (IterDir file_object) ;;
        for_each (iterdir host file_object)
          (fun leaf_filename =>
             if wanted hot_extensions leaf_filename
             then append candidates leaf_filename
             else ret tt) ;;
        ret issues
      else
        found <- check engine file_object ;;
        ret (issues ++ found)
  end.

(** The [while candidates:] loop of lines 97-105. *)
Fixpoint process_loop (fuel : nat) (engine : list Style)
    (hot_extensions : gset string) (candidates : loc)
    (issues : list Issue) : M (list Issue) :=
  current <- get_list candidates ;;
  match current with
  | [] => ret issues
  | _ :: _ =>
      match fuel with
      | O => out_of_fuel
      | S fuel' =>
          issues' <- loop_body engine hot_extensions candidates issues ;;
          process_loop fuel' engine hot_extensions candidates issues'
      end
  end.

Definition process (fuel : nat) (candidates : loc) (styles : list Style)
  : M (list Issue) :=
  engine <- new_check_engine styles ;;
  hot_extensions <- get_extensions ;;
  process_loop fuel engine hot_extensions candidates [].

(** ** [perform] *)

(** The double-quote character of the message of line 135. *)
Definition dquote : string := String (ascii_of_nat 34) EmptyString.

(** [f"{tally}"] *)
Definition decimal (n : nat) : string :=
  NilZero.string_of_uint (Nat.to_uint n).

(** The [for name in style:] loop of lines 131-137. *)
Fixpoint named_styles (defined : gmap string Style) (style : list string)
    (chosen : list Style) : Result (list Style) :=
  match style with
  | [] => Return chosen
  | name :: rest =>
      match defined !! name with
      | Some found => named_styles defined rest (chosen ++ [found])
      | None =>
          Raise (StylistException
                   ("Style " +:+ dquote +:+ name +:+ dquote
                    +:+ " is not defined by the configuration."))
      end
  end.

(** Lines 129-147. *)
Definition select_styles (configuration : Configuration)
    (style : list string) : Result (list Style) :=
  match style with
  | _ :: _ => named_styles (styles configuration) style []
  | [] =>
      if Nat.eqb (size (styles configuration)) 1
      then Return ([] ++ (map_to_list (styles configuration)).*2)
      else Raise (StylistException
                    "No style specified and more than one defined.")
  end.

(** Lines 149-158. *)
Definition register_pipelines (configuration : Configuration)
    (map_extension : list string) : M unit :=
  for_each (file_pipes configuration)
    (fun item => add_extension item.1 item.2) ;;
  for_each map_extension
    (fun mapping =>
       item <- lift (parse_pipe_description mapping) ;;
       add_extension item.1 item.2).

(** Line 170. *)
Definition summary (tally : nat) : string :=
  "Found " +:+ decimal tally +:+ " issue"
  +:+ (if Nat.ltb 1 tally then "s" else "").

(** Lines 162-170. *)
Definition report (issues : list Issue) (verbose : bool) : M unit :=
  for_each issues (fun issue => emit (Print Stderr (issue_str host issue))) ;;
  if Nat.ltb 0 (length issues) || verbose
  then emit (Print Stdout (summary (length issues)))
  else ret tt.

Definition perform (fuel : nat) (configuration : Configuration)
    (source : loc) (style : list string) (map_extension : list string)
    (verbose : bool) : M (list Issue) :=
  if Nat.eqb (size (styles configuration)) 0
  then raise (StylistException
                "No styles are defined by the configuration.")
  else
    chosen <- lift (select_styles configuration style) ;;
    register_pipelines configuration map_extension ;;
    issues <- process fuel source chosen ;;
    report issues verbose ;;
    ret issues.

(** ** [main] *)

(** The namespace that [__parse_cli] returns. *)
Record Arguments := mkArguments {
  arg_verbose : bool;
  arg_configuration : option Path;
  arg_style : list string;
  arg_map_extension : list string;
  arg_source : loc
}.

(** [sys.exit(code)] *)
Definition sys_exit {A} (code : nat) : M A := raise (SystemExit code).

(** What [argparse] and the plugin classes bring to [__parse_cli]: the
    display names of the plugins, and what [parse_args] does with the
    command line of the process once the parser is built with the key
    tables in its epilogue: it returns a namespace, or it leaves with the
    exit of a usage error or of a call for help. *)
Record CommandLine := mkCommandLine {
  language_name : string -> string;
  preprocessor_name : string -> string;
  parse_args : list string * list string -> Result Arguments
}.

(** [__parse_cli], lines 28-83: the key tables of lines 34-43, with the
    [ValueError] of [max] on an empty sequence, then the parser. *)
Definition parse_cli (command_line : CommandLine) : M Arguments :=
  match help_tables (parser_keys host) (language_name command_line)
          (preprocessor_keys host) (preprocessor_name command_line) with
  | None => raise ValueError
  | Some tables => lift (parse_args command_line tables)
  end.

Definition main (fuel : nat) (command_line : CommandLine) : M unit :=
  emit AddHandler ;;
  arguments <- parse_cli command_line ;;
  (if arg_verbose arguments
   then emit (SetLevel INFO)
   else emit (SetLevel WARNING)) ;;
  configuration <- lift (load_configuration host
                           (arg_configuration arguments)) ;;
  issues <- perform fuel configuration (arg_source arguments)
              (arg_style arguments) (arg_map_extension arguments)
              (arg_verbose arguments) ;;
  match issues with
  | _ :: _ => sys_exit 1
  | [] => sys_exit 0
  end.

(** The status with which the interpreter ends the process: the code of
    [SystemExit], 1 for any other uncaught exception. *)
Definition exit_status {A} (outcome : Result A) : nat :=
  match outcome with
  | Raise (SystemExit code) => code
  | Raise _ => 1
  | Return _ => 0
  end.

End Driver.

(** * Vocabulary of the properties *)

Section Vocabulary.

Context (host : Host).

(** The call that one turn of the loop makes for a path. *)
Definition visit_event (p : Path) : Event :=
  if is_dir host p then IterDir p else Check p.

(** What the paths of a list put at the back of the candidate list. *)
Definition next_level (hot_extensions : gset string) (queue : list Path)
  : list Path :=
  flat_map (fun p =>
              if is_dir host p
              then List.filter (wanted host hot_extensions) (iterdir host p)
              else [])
           queue.

(** What the engine finds in the files of a list, directories and files
    that it refuses apart. *)
Definition gather (engine : list Style) (registered : gmap string FilePipe)
    (queue : list Path) : list Issue :=
  flat_map (fun p =>
              if is_dir host p then []
              else match engine_check host engine registered p with
                   | Return found => found
                   | Raise _ => []
                   end)
           queue.

Definition is_registration (ev : Event) : bool :=
  match ev with
  | AddExtension _ _ => true
  | _ => false
  end.

Definition is_print (ev : Event) : bool :=
  match ev with
  | Print _ _ => true
  | _ => false
  end.

(** The world once [main] has added the log handler. *)
Definition handler_added (w : World) : World :=
  mkWorld (extensions w) (lists w) (log w ++ [AddHandler]).

(** The world once [main] has set the log level. *)
Definition level_set (w : World) (verbose : bool) : World :=
  mkWorld (extensions w) (lists w)
          (log w ++ [AddHandler;
                     SetLevel (if verbose then INFO else WARNING)]).

(** The number of issues that a run has reported on stderr. *)
Definition reported (w : World) : nat :=
  length (List.filter (fun ev => match ev with
                                 | Print Stderr _ => true
                                 | _ => false
                                 end) (log w)).

(** A computation that comes to an end in every world, leaves the list
    objects alone and logs registrations only. *)
Definition registers_only (m : M unit) : Prop :=
  forall w, exists outcome w' events,
    m w = Some (outcome, w') /\
    lists w' = lists w /\
    log w' = log w ++ events /\
    forallb is_registration events = true.

(** The loop of [__process] as a function of the contents of the candidate
    list: the outcome, the contents that remain in the list, and the calls
    made. *)
Fixpoint work_list (fuel : nat) (engine : list Style)
    (registered : gmap string FilePipe) (hot_extensions : gset string)
    (queue : list Path) (issues : list Issue)
  : option (Result (list Issue) * list Path * list Event) :=
  match queue with
  | [] => Some (Return issues, [], [])
  | file_object :: rest =>
      match fuel with
      | O => None
      | S fuel' =>
          if is_dir host file_object
          then
            match work_list fuel' engine registered hot_extensions
                    (rest ++ List.filter (wanted host hot_extensions)
                                         (iterdir host file_object))
                    issues with
            | Some (outcome, remaining, calls) =>
                Some (outcome, remaining, IterDir file_object :: calls)
            | None => None
            end
          else
            match engine_check host engine registered file_object with
            | Raise e => Some (Raise e, rest, [Check file_object])
            | Return found =>
                match work_list fuel' engine registered hot_extensions
                        rest (issues ++ found) with
                | Some (outcome, remaining, calls) =>
                    Some (outcome, remaining, Check file_object :: calls)
                | None => None
                end
            end
      end
  end.


(** The files handed to the engine, in call order. *)
Fixpoint checked_files (calls : list Event) : list Path :=
  match calls with
  | [] => []
  | Check file :: rest => file :: checked_files rest
  | _ :: rest => checked_files rest
  end.

(** The events of the traversal are descents and checks only. *)
Definition is_visit (ev : Event) : bool :=
  match ev with
  | IterDir _ | Check _ => true
  | _ => false
  end.

(** [weight] bounds, for every directory, the number of wanted entries
    below it; a finite directory tree has such a bound. *)
Definition bounded_below (hot_extensions : gset string)
    (weight : Path -> nat) : Prop :=
  forall d, is_dir host d = true ->
    list_sum (List.map (fun leaf => S (weight leaf))
                (List.filter (wanted host hot_extensions) (iterdir host d)))
    <= weight d.

Definition needed_fuel (weight : Path -> nat) (queue : list Path) : nat :=
  list_sum (List.map (fun p => S (weight p)) queue).

(** Assignment of new contents to a list object that exists. *)
Definition store (l : loc) (contents : list Path)
    (heap : gmap loc (list Path)) : gmap loc (list Path) :=
  match heap !! l with
  | Some _ => <[l := contents]> heap
  | None => heap
  end.

Definition registration (item : string * FilePipe) : Event :=
  AddExtension item.1 item.2.

(** The registry after the given registrations, in order. *)
Definition register_all (items : list (string * FilePipe))
    (registered : gmap string FilePipe) : gmap string FilePipe :=
  foldl (fun m item => <[item.1 := item.2]> m) registered items.

Definition report_events (issues : list Issue) (verbose : bool)
  : list Event :=
  List.map (fun issue => Print Stderr (issue_str host issue)) issues
  ++ (if Nat.ltb 0 (length issues) || verbose
      then [Print Stdout (summary (length issues))]
      else []).

(** [issues] is in non-decreasing order of file path. *)
Fixpoint sorted_by_path (issues : list Issue) : bool :=
  match issues with
  | [] => true
  | first :: rest =>
      match rest with
      | [] => true
      | second :: _ =>
          String.leb (issue_path first) (issue_path second)
          && sorted_by_path rest
      end
  end.

End Vocabulary.

(** Two hosts that answer every call of the driver alike: the same file
    system, plugin registry, engine and configuration loader. *)
Definition same_host (h1 h2 : Host) : Prop :=
  (forall p, is_dir h1 p = is_dir h2 p) /\
  (forall p, iterdir h1 p = iterdir h2 p) /\
  (forall p, suffix h1 p = suffix h2 p) /\
  parser_keys h1 = parser_keys h2 /\
  preprocessor_keys h1 = preprocessor_keys h2 /\
  (forall engine registered p,
     engine_check h1 engine registered p
     = engine_check h2 engine registered p) /\
  (forall issue, issue_str h1 issue = issue_str h2 issue) /\
  (forall file, load_configuration h1 file = load_configuration h2 file).

(** Two hosts with the same files: they answer every call of the driver
    alike, but for the order in which a directory lists its entries. *)
Definition same_files (h1 h2 : Host) : Prop :=
  (forall p, is_dir h1 p = is_dir h2 p) /\
  (forall p, Permutation (iterdir h1 p) (iterdir h2 p)) /\
  (forall p, suffix h1 p = suffix h2 p) /\
  parser_keys h1 = parser_keys h2 /\
  preprocessor_keys h1 = preprocessor_keys h2 /\
  (forall engine registered p,
     engine_check h1 engine registered p
     = engine_check h2 engine registered p) /\
  (forall issue, issue_str h1 issue = issue_str h2 issue) /\
  (forall file, load_configuration h1 file = load_configuration h2 file).

(** The lines printed on a stream, in order. *)
Fixpoint printed (stream : Stream) (events : list Event) : list string :=
  match events with
  | [] => []
  | Print Stdout line :: rest =>
      match stream with
      | Stdout => line :: printed stream rest
      | Stderr => printed stream rest
      end
  | Print Stderr line :: rest =>
      match stream with
      | Stdout => printed stream rest
      | Stderr => line :: printed stream rest
      end
  | _ :: rest => printed stream rest
  end.

(** ** A small host for examples *)

Module Example.

Definition fortran : Style := mkStyle "fortran" ["missing-implicit"].
Definition c_style : Style := mkStyle "c" ["brace-placement"].

Definition an_issue (file : Path) : Issue :=
  mkIssue file (Some 1) None "missing-implicit" warning "bad style".

(** A file system with one directory, [src], that holds [src/b.f90],
    [src/a.f90] and [src/notes.txt]. *)
Definition host : Host := {|
  is_dir p := String.eqb p "src";
  iterdir p :=
    if String.eqb p "src" then ["src/b.f90"; "src/a.f90"; "src/notes.txt"]
    else [];
  suffix p :=
    if String.eqb p "src" then ""
    else if String.eqb p "src/notes.txt" then ".txt"
    else if String.eqb p "README" then ""
    else ".f90";
  parser_keys := ["fortran"; "c"; "plain"];
  preprocessor_keys := ["cpp"; "fpp"];
  engine_check _ _ file := Return [an_issue file];
  issue_str issue := issue_path issue +:+ ": " +:+ issue_message issue;
  load_configuration _ :=
    Return (mkConfiguration {[ "fortran" := fortran ]}
                            [("f90", mkFilePipe "fortran" ["fpp"])])
|}.

Definition one_style : Configuration :=
  mkConfiguration {[ "fortran" := fortran ]}
                  [("f90", mkFilePipe "fortran" ["fpp"])].

Definition two_styles : Configuration :=
  mkConfiguration (<[ "c" := c_style ]> {[ "fortran" := fortran ]})
                  [("f90", mkFilePipe "fortran" ["fpp"])].

Definition no_styles : Configuration :=
  mkConfiguration ∅ [].

Definition world (source : list Path) : World :=
  mkWorld ∅ {[ 0 := source ]} [].

(** A world in which the [f90] pipeline is registered and the candidate
    list holds the directory and a file without extension. *)
Definition ready : World :=
  mkWorld {[ "f90" := mkFilePipe "fortran" ["fpp"] ]}
          {[ 0 := ["src"; "README"] ]} [].

Definition found : list Issue :=
  [an_issue "README"; an_issue "src/b.f90"; an_issue "src/a.f90"].

(** The world after [__process] has run on [ready]. *)
Definition processed : World :=
  Eval vm_compute in
    match process host 5 0 [fortran] ready with
    | Some (_, w') => w'
    | None => ready
    end.

(** The world after [perform] has run on [src] and [README]. *)
Definition performed : World :=
  Eval vm_compute in
    match perform host 5 one_style 0 [] ["f90:plain"] true
            (world ["src"; "README"]) with
    | Some (_, w') => w'
    | None => world []
    end.

(** The world after the registration of one command-line mapping. *)
Definition registered : World :=
  Eval vm_compute in
    match register_pipelines host one_style ["f90:plain"] (world []) with
    | Some (_, w') => w'
    | None => world []
    end.

Definition arguments : Arguments := mkArguments false None [] [] 0.

Definition display_name (key : string) : string :=
  if String.eqb key "fortran" then "Fortran"
  else if String.eqb key "c" then "C"
  else "Plain text".

(** A command line that names no option and the one source [README]. *)
Definition command_line : CommandLine :=
  mkCommandLine display_name display_name (fun _ => Return arguments).

(** The world after [main] has run on [README]. *)
Definition finished : World :=
  Eval vm_compute in
    match main host 5 command_line (world ["README"]) with
    | Some (_, w') => w'
    | None => world []
    end.


(** The example host with [src] listing the same entries in another
    order. *)
Definition shuffled_host : Host := {|
  is_dir := is_dir host;
  iterdir p :=
    if String.eqb p "src" then ["src/a.f90"; "src/b.f90"; "src/notes.txt"]
    else [];
  suffix := suffix host;
  parser_keys := parser_keys host;
  preprocessor_keys := preprocessor_keys host;
  engine_check := engine_check host;
  issue_str := issue_str host;
  load_configuration := load_configuration host
|}.

(** The example host with a configuration file that defines no style. *)
Definition unconfigured_host : Host := {|
  is_dir := is_dir host;
  iterdir := iterdir host;
  suffix := suffix host;
  parser_keys := parser_keys host;
  preprocessor_keys := preprocessor_keys host;
  engine_check := engine_check host;
  issue_str := issue_str host;
  load_configuration _ := Return no_styles
|}.

(** What lies below each path of the example file system. *)
Definition weight (p : Path) : nat :=
  if String.eqb p "src" then 2 else 0.

(** The same, whatever the registered extensions. *)
Definition weight_all (p : Path) : nat :=
  if String.eqb p "src" then 3 else 0.

(** The example host with an engine that refuses a file whose extension
    has no pipeline. *)
Definition strict_host : Host := {|
  is_dir := is_dir host;
  iterdir := iterdir host;
  suffix := suffix host;
  parser_keys := parser_keys host;
  preprocessor_keys := preprocessor_keys host;
  engine_check _ registered file :=
    if bool_decide (drop_first (suffix host file) ∈ dom registered)
    then Return [an_issue file]
    else Raise (CheckError file "no pipeline");
  issue_str := issue_str host;
  load_configuration := load_configuration host
|}.

(** The world after [perform] has failed on [README] with the strict
    engine. *)
Definition refused : World :=
  Eval vm_compute in
    match perform strict_host 5 one_style 0 [] [] true
            (world ["src/a.f90"; "README"; "src/b.f90"]) with
    | Some (_, w') => w'
    | None => world []
    end.


(** The worlds after [perform] has run on [src] with the one host and
    with the other. *)
Definition listed : World :=
  Eval vm_compute in
    match perform host 5 one_style 0 [] [] false (world ["src"]) with
    | Some (_, w') => w'
    | None => world []
    end.

Definition listed_shuffled : World :=
  Eval vm_compute in
    match perform shuffled_host 5 one_style 0 [] [] false
            (world ["src"]) with
    | Some (_, w') => w'
    | None => world []
    end.

(** The world after [main] has found no style in the configuration. *)
Definition unconfigured : World :=
  Eval vm_compute in
    match main unconfigured_host 5 command_line (world ["README"]) with
    | Some (_, w') => w'
    | None => world []
    end.

(** The world after the registration of a mapping with an unknown
    parser. *)
Definition unregistered : World :=
  Eval vm_compute in
    match register_pipelines host one_style ["f90:nosuch"]
            (world ["src"]) with
    | Some (_, w') => w'
    | None => world []
    end.

(** The world after a second call of [perform] on [performed]. *)
Definition performed_again : World :=
  Eval vm_compute in
    match perform host 0 one_style 0 [] ["f90:plain"] true performed with
    | Some (_, w') => w'
    | None => world []
    end.

End Example.

(** * Properties *)

Section Properties.

Context (host : Host).

(** ** Style selection *)

Lemma size_one_singleton (defined : gmap string Style) :
  size defined = 1 ->
  exists name only, defined = {[ name := only ]}.
Proof.
  intros Hsize. rewrite <- length_map_to_list in Hsize.
  destruct (map_to_list defined) as [|[name only] [|? ?]] eqn:Hlist;
    simpl in Hsize; try discriminate.
  exists name, only.
  rewrite <- (list_to_map_to_list defined), Hlist. reflexivity.
Qed.

Lemma select_styles_single (configuration : Configuration) name only :
  styles configuration = {[ name := only ]} ->
  select_styles configuration [] = Return [only].
Proof.
  intros Hdef. unfold select_styles. rewrite Hdef.
  rewrite map_size_singleton, map_to_list_singleton. reflexivity.
Qed.

Lemma named_styles_undefined defined style name :
  name ∈ style -> defined !! name = None ->
  forall chosen, exists message,
    named_styles defined style chosen = Raise (StylistException message).
Proof.
  intros Hin Hnone. induction style as [|first rest IH]; intros chosen.
  - inversion Hin.
  - simpl. destruct (defined !! first) as [found|] eqn:Hfirst.
    + apply IH. apply elem_of_cons in Hin as [->|Hin]; [congruence|done].
    + eexists. reflexivity.
Qed.

(** ** The work list of [__process] *)

Lemma world_eta (w : World) :
  mkWorld (extensions w) (lists w) (log w) = w.
Proof. destruct w; reflexivity. Qed.

Lemma for_each_append hot_extensions candidates leaves :
  forall w queue,
    lists w !! candidates = Some queue ->
    for_each leaves
      (fun leaf_filename =>
         if wanted host hot_extensions leaf_filename
         then append candidates leaf_filename
         else ret tt) w
    = Some (Return tt,
            mkWorld (extensions w)
              (<[candidates :=
                   queue ++ List.filter (wanted host hot_extensions) leaves]>
                 (lists w))
              (log w)).
Proof.
  induction leaves as [|leaf leaves IH]; intros w queue Hqueue; simpl.
  - rewrite app_nil_r, insert_id by done. rewrite world_eta. reflexivity.
  - unfold bind at 1.
    destruct (wanted host hot_extensions leaf) eqn:Hwanted.
    + unfold append, bind, get_list, set_list. rewrite Hqueue. simpl.
      rewrite (IH _ (queue ++ [leaf])) by (simpl; apply lookup_insert_eq).
      simpl. rewrite insert_insert_eq, <- app_assoc. reflexivity.
    + unfold ret. apply IH, Hqueue.
Qed.

(** One turn of the loop takes the first path off the list and puts the
    wanted entries of a directory at its end. *)
Lemma loop_body_spec engine hot_extensions candidates issues w
    file_object rest :
  lists w !! candidates = Some (file_object :: rest) ->
  loop_body host engine hot_extensions candidates issues w
  = if is_dir host file_object
    then Some (Return issues,
               mkWorld (extensions w)
                 (<[candidates :=
                      rest ++ List.filter (wanted host hot_extensions)
                                          (iterdir host file_object)]>
                    (lists w))
                 (log w ++ [IterDir file_object]))
    else Some (match engine_check host engine (extensions w) file_object with
               | Return found => Return (issues ++ found)
               | Raise e => Raise e
               end,
               mkWorld (extensions w) (<[candidates := rest]> (lists w))
                       (log w ++ [Check file_object])).
Proof.
  intros Hqueue. unfold loop_body.
  unfold bind at 1. unfold get_list at 1. rewrite Hqueue. simpl.
  unfold bind at 1. unfold set_list at 1.
  destruct (is_dir host file_object).
  - unfold bind at 1. unfold emit at 1. unfold bind at 1.
    rewrite (for_each_append _ _ _ _ rest)
      by (simpl; apply lookup_insert_eq).
    simpl. by rewrite insert_insert_eq.
  - unfold bind at 1. unfold check at 1. unfold bind at 1.
    unfold emit at 1. simpl.
    by destruct (engine_check host engine (extensions w) file_object).
Qed.

(** [process_loop] on a world whose candidate list holds [queue] computes
    [work_list] on [queue]. *)
Lemma process_loop_work_list engine hot_extensions candidates :
  forall fuel w queue issues,
    lists w !! candidates = Some queue ->
    process_loop host fuel engine hot_extensions candidates issues w
    = match work_list host fuel engine (extensions w) hot_extensions
              queue issues with
      | Some (outcome, remaining, calls) =>
          Some (outcome,
                mkWorld (extensions w) (<[candidates := remaining]> (lists w))
                        (log w ++ calls))
      | None => None
      end.
Proof.
  induction fuel as [|fuel IH]; intros w queue issues Hqueue;
    destruct queue as [|file_object rest]; simpl;
    unfold bind at 1; unfold get_list at 1; rewrite Hqueue; simpl.
  - rewrite app_nil_r, insert_id by done. rewrite world_eta. reflexivity.
  - reflexivity.
  - rewrite app_nil_r, insert_id by done. rewrite world_eta. reflexivity.
  - unfold bind at 1. rewrite (loop_body_spec _ _ _ _ _ _ _ Hqueue).
    destruct (is_dir host file_object) eqn:Hdir.
    + rewrite (IH _ (rest ++ List.filter (wanted host hot_extensions)
                                         (iterdir host file_object)))
        by (simpl; apply lookup_insert_eq).
      simpl.
      destruct (work_list host fuel engine (extensions w) hot_extensions _ issues)
        as [[[outcome remaining] calls]|]; [|reflexivity].
      rewrite insert_insert_eq, <- app_assoc. reflexivity.
    + destruct (engine_check host engine (extensions w) file_object)
        as [found|e]; [|reflexivity].
      rewrite (IH _ rest) by (simpl; apply lookup_insert_eq).
      simpl.
      destruct (work_list host fuel engine (extensions w) hot_extensions rest _)
        as [[[outcome remaining] calls]|]; [|reflexivity].
      rewrite insert_insert_eq, <- app_assoc. reflexivity.
Qed.



(** A normal return leaves the list empty. *)
Lemma work_list_return_empty engine registered hot_extensions :
  forall fuel queue issues found remaining calls,
    work_list host fuel engine registered hot_extensions queue issues
    = Some (Return found, remaining, calls) ->
    remaining = [].
Proof.
  induction fuel as [|fuel IH]; intros queue issues found remaining calls;
    destruct queue as [|file_object rest]; simpl; try congruence.
  destruct (is_dir host file_object).
  - destruct (work_list host fuel _ _ _ _ issues)
      as [[[outcome remaining'] calls']|] eqn:Hrec; [|discriminate].
    intros [= -> <- <-]. eapply IH, Hrec.
  - destruct (engine_check host engine registered file_object)
      as [per_file|e]; [|discriminate].
    destruct (work_list host fuel _ _ _ rest _)
      as [[[outcome remaining'] calls']|] eqn:Hrec; [|discriminate].
    intros [= -> <- <-]. eapply IH, Hrec.
Qed.



Lemma work_list_calls engine registered hot_extensions :
  forall fuel queue issues outcome remaining calls,
    work_list host fuel engine registered hot_extensions queue issues
    = Some (outcome, remaining, calls) ->
    forallb is_visit calls = true.
Proof.
  induction fuel as [|fuel IH]; intros queue issues outcome remaining calls;
    destruct queue as [|file_object rest]; simpl; try congruence.
  - by intros [= <- <- <-].
  - by intros [= <- <- <-].
  - destruct (is_dir host file_object).
    + destruct (work_list host fuel _ _ _ _ issues)
        as [[[outcome' remaining'] calls']|] eqn:Hrec; [|discriminate].
      intros [= <- <- <-]. simpl. eapply IH, Hrec.
    + destruct (engine_check host engine registered file_object)
        as [per_file|e]; [|by intros [= <- <- <-]].
      destruct (work_list host fuel _ _ _ rest _)
        as [[[outcome' remaining'] calls']|] eqn:Hrec; [|discriminate].
      intros [= <- <- <-]. simpl. eapply IH, Hrec.
Qed.

(** The issues returned are those accumulated so far followed by what the
    engine found in each file, in the order in which the files are taken
    from the list. *)
Lemma work_list_issues engine registered hot_extensions :
  forall fuel queue issues found remaining calls,
    work_list host fuel engine registered hot_extensions queue issues
    = Some (Return found, remaining, calls) ->
    exists per_file,
      List.map (engine_check host engine registered) (checked_files calls)
      = List.map Return per_file /\
      found = issues ++ concat per_file.
Proof.
  induction fuel as [|fuel IH]; intros queue issues found remaining calls;
    destruct queue as [|file_object rest]; simpl; try congruence.
  - intros [= <- <- <-]. exists []. by rewrite app_nil_r.
  - intros [= <- <- <-]. exists []. by rewrite app_nil_r.
  - destruct (is_dir host file_object).
    + destruct (work_list host fuel _ _ _ _ issues)
        as [[[outcome' remaining'] calls']|] eqn:Hrec; [|discriminate].
      intros [= -> <- <-]. simpl. eapply IH, Hrec.
    + destruct (engine_check host engine registered file_object)
        as [here|e] eqn:Hcheck; [|discriminate].
      destruct (work_list host fuel _ _ _ rest _)
        as [[[outcome' remaining'] calls']|] eqn:Hrec; [|discriminate].
      intros [= -> <- <-].
      destruct (IH _ _ _ _ _ Hrec) as (per_file & Hmap & ->).
      exists (here :: per_file). simpl. rewrite Hcheck, Hmap.
      by rewrite <- app_assoc.
Qed.

(** With no directory in the list, the files are checked in list order. *)
Lemma work_list_files engine registered hot_extensions :
  forall fuel queue issues found remaining calls,
    (forall p, p ∈ queue -> is_dir host p = false) ->
    work_list host fuel engine registered hot_extensions queue issues
    = Some (Return found, remaining, calls) ->
    calls = List.map Check queue.
Proof.
  induction fuel as [|fuel IH]; intros queue issues found remaining calls;
    destruct queue as [|file_object rest]; simpl; try congruence.
  intros Hfiles. rewrite (Hfiles file_object) by left.
  destruct (engine_check host engine registered file_object)
    as [here|e]; [|discriminate].
  destruct (work_list host fuel _ _ _ rest _)
    as [[[outcome' remaining'] calls']|] eqn:Hrec; [|discriminate].
  intros [= -> <- <-]. f_equal. eapply IH, Hrec.
  intros p Hp. apply Hfiles. by right.
Qed.

(** More fuel does not change an outcome. *)
Lemma work_list_more_fuel engine registered hot_extensions :
  forall fuel fuel' queue issues result,
    fuel <= fuel' ->
    work_list host fuel engine registered hot_extensions queue issues
    = Some result ->
    work_list host fuel' engine registered hot_extensions queue issues
    = Some result.
Proof.
  induction fuel as [|fuel IH]; intros fuel' queue issues result Hle;
    destruct queue as [|file_object rest]; simpl; try congruence.
  - intros <-. by destruct fuel'.
  - intros <-. by destruct fuel'.
  - destruct fuel' as [|fuel']; [lia|]. simpl.
    destruct (is_dir host file_object).
    + destruct (work_list host fuel _ _ _ _ issues) as [result'|] eqn:Hrec;
        [|discriminate].
      by rewrite (IH fuel' _ _ _ ltac:(lia) Hrec).
    + destruct (engine_check host engine registered file_object)
        as [here|e]; [|done].
      destruct (work_list host fuel _ _ _ rest _) as [result'|] eqn:Hrec;
        [|discriminate].
      by rewrite (IH fuel' _ _ _ ltac:(lia) Hrec).
Qed.

(** *** Termination *)

Lemma work_list_terminates engine registered hot_extensions weight :
  bounded_below host hot_extensions weight ->
  forall fuel queue issues,
    needed_fuel weight queue <= fuel ->
    is_Some (work_list host fuel engine registered hot_extensions queue issues).
Proof.
  intros Hbound. unfold needed_fuel.
  induction fuel as [|fuel IH]; intros queue issues Hfuel;
    destruct queue as [|file_object rest]; simpl in *; try done; try lia.
  destruct (is_dir host file_object) eqn:Hdir.
  - destruct (IH (rest ++ List.filter (wanted host hot_extensions)
                                      (iterdir host file_object)) issues)
      as [[[outcome remaining] calls] ->]; [|done].
    rewrite List.map_app, list_sum_app.
    specialize (Hbound _ Hdir). lia.
  - destruct (engine_check host engine registered file_object)
      as [here|e]; [|done].
    destruct (IH rest (issues ++ here)) as [[[outcome remaining] calls] ->];
      [lia|done].
Qed.

(** *** [__process] in terms of the work list *)

Lemma work_list_nil fuel engine registered hot_extensions issues :
  work_list host fuel engine registered hot_extensions [] issues
  = Some (Return issues, [], []).
Proof. by destruct fuel. Qed.

Lemma process_loop_spec engine hot_extensions candidates fuel w issues :
  process_loop host fuel engine hot_extensions candidates issues w
  = match work_list host fuel engine (extensions w) hot_extensions
            (default [] (lists w !! candidates)) issues with
    | Some (outcome, remaining, calls) =>
        Some (outcome,
              mkWorld (extensions w) (store candidates remaining (lists w))
                      (log w ++ calls))
    | None => None
    end.
Proof.
  unfold store. destruct (lists w !! candidates) as [queue|] eqn:Hqueue.
  - by apply process_loop_work_list.
  - simpl. rewrite work_list_nil, app_nil_r, world_eta.
    destruct fuel; simpl; unfold bind, get_list; by rewrite Hqueue.
Qed.

Lemma process_spec fuel candidates chosen w :
  process host fuel candidates chosen w
  = match chosen with
    | [] =>
        Some (Raise NoStyleSelectedError,
              mkWorld (extensions w) (lists w)
                      (log w ++ [NewCheckEngine chosen]))
    | _ =>
        match work_list host fuel chosen (extensions w) (dom (extensions w))
                (default [] (lists w !! candidates)) [] with
        | Some (outcome, remaining, calls) =>
            Some (outcome,
                  mkWorld (extensions w)
                    (store candidates remaining (lists w))
                    (log w ++ NewCheckEngine chosen :: calls))
        | None => None
        end
    end.
Proof.
  unfold process, new_check_engine.
  destruct chosen as [|first others]; [reflexivity|].
  unfold bind at 1. unfold bind at 1. unfold emit at 1. unfold ret at 1.
  unfold bind at 1. unfold get_extensions at 1.
  rewrite process_loop_spec. simpl.
  destruct (work_list host fuel _ _ _ _ _) as [[[outcome remaining] calls]|];
    [|reflexivity].
  by rewrite <- app_assoc.
Qed.

(** ** Registration of pipelines *)

Lemma register_all_app items1 items2 registered :
  register_all (items1 ++ items2) registered
  = register_all items2 (register_all items1 registered).
Proof. apply foldl_app. Qed.

Lemma register_all_absent items ext :
  ext ∉ items.*1 ->
  forall registered,
    register_all items registered !! ext = registered !! ext.
Proof.
  induction items as [|[e p] items IH]; intros Hnot registered; [done|].
  simpl in *. apply not_elem_of_cons in Hnot as [Hne Hnot].
  rewrite IH by done. by apply lookup_insert_ne.
Qed.

(** The last registration of an extension is the one that stays. *)
Lemma register_all_last before ext pipe after registered :
  ext ∉ after.*1 ->
  register_all (before ++ (ext, pipe) :: after) registered !! ext
  = Some pipe.
Proof.
  intros Hnot. rewrite register_all_app. simpl.
  rewrite register_all_absent by done. apply lookup_insert_eq.
Qed.

Lemma add_extension_returns extension pipe w w' :
  add_extension host extension pipe w = Some (Return tt, w') ->
  w' = mkWorld (<[extension := pipe]> (extensions w)) (lists w)
               (log w ++ [AddExtension extension pipe]).
Proof.
  unfold add_extension, bind, emit, raise.
  destruct (unknown_key host pipe); [discriminate|]. by intros [= <-].
Qed.

Lemma for_each_add_extension items :
  forall w w',
    for_each items (fun item => add_extension host item.1 item.2) w
    = Some (Return tt, w') ->
    w' = mkWorld (register_all items (extensions w)) (lists w)
                 (log w ++ List.map registration items).
Proof.
  induction items as [|item items IH]; intros w w'; simpl.
  - intros [= <-]. by rewrite app_nil_r, world_eta.
  - unfold bind at 1.
    destruct (add_extension host item.1 item.2 w) as [[[[]|e] w1]|] eqn:Hadd;
      try discriminate.
    apply add_extension_returns in Hadd as ->.
    intros ->%IH. simpl. by rewrite <- app_assoc.
Qed.

Lemma for_each_mapping map_extension :
  forall w w',
    for_each map_extension
      (fun mapping =>
         item <- lift (parse_pipe_description mapping) ;;
         add_extension host item.1 item.2) w
    = Some (Return tt, w') ->
    exists items,
      List.map parse_pipe_description map_extension
      = List.map Return items /\
      w' = mkWorld (register_all items (extensions w)) (lists w)
                   (log w ++ List.map registration items).
Proof.
  induction map_extension as [|mapping rest IH]; intros w w'; simpl.
  - intros [= <-]. exists []. split; [done|].
    unfold register_all. simpl. by rewrite app_nil_r, world_eta.
  - unfold bind at 1. unfold bind at 1. unfold lift at 1.
    destruct (parse_pipe_description mapping) as [item|e]; [|discriminate].
    destruct (add_extension host item.1 item.2 w) as [[[[]|e] w1]|] eqn:Hadd;
      try discriminate.
    apply add_extension_returns in Hadd as ->.
    intros (items & Hparsed & ->)%IH. exists (item :: items). simpl.
    rewrite Hparsed. by rewrite <- app_assoc.
Qed.

Lemma register_pipelines_returns configuration map_extension w w' :
  register_pipelines host configuration map_extension w
  = Some (Return tt, w') ->
  exists items,
    List.map parse_pipe_description map_extension = List.map Return items /\
    w' = mkWorld
           (register_all (file_pipes configuration ++ items) (extensions w))
           (lists w)
           (log w ++ List.map registration (file_pipes configuration)
                  ++ List.map registration items).
Proof.
  unfold register_pipelines. unfold bind at 1.
  destruct (for_each (file_pipes configuration) _ w)
    as [[[[]|e] w1]|] eqn:Hfile; try discriminate.
  apply for_each_add_extension in Hfile as ->.
  intros (items & Hparsed & ->)%for_each_mapping.
  exists items. split; [done|]. simpl.
  by rewrite register_all_app, <- app_assoc.
Qed.

(** ** The report *)

Lemma report_spec issues verbose w :
  report host issues verbose w
  = Some (Return tt,
          mkWorld (extensions w) (lists w)
                  (log w ++ report_events host issues verbose)).
Proof.
  unfold report, report_events. unfold bind at 1.
  assert (Hloop : forall w,
    for_each issues (fun issue => emit (Print Stderr (issue_str host issue))) w
    = Some (Return tt,
            mkWorld (extensions w) (lists w)
              (log w ++ List.map
                 (fun issue => Print Stderr (issue_str host issue)) issues))).
  { clear w. induction issues as [|issue issues IH]; intros w; simpl.
    - by rewrite app_nil_r, world_eta.
    - unfold bind, emit. rewrite IH. simpl. by rewrite <- app_assoc. }
  rewrite Hloop.
  destruct (Nat.ltb 0 (length issues) || verbose); simpl.
  - unfold emit. simpl. by rewrite <- app_assoc.
  - unfold ret. by rewrite app_nil_r.
Qed.

(** ** [perform] as a whole *)

(** A call of [perform] that returns: the styles chosen, the pipelines
    registered, the traversal and the report. *)
Lemma perform_returns fuel configuration source style map_extension verbose
    w issues w' :
  perform host fuel configuration source style map_extension verbose w
  = Some (Return issues, w') ->
  exists chosen items calls,
    select_styles configuration style = Return chosen /\
    List.map parse_pipe_description map_extension = List.map Return items /\
    work_list host fuel chosen
      (register_all (file_pipes configuration ++ items) (extensions w))
      (dom (register_all (file_pipes configuration ++ items) (extensions w)))
      (default [] (lists w !! source)) []
    = Some (Return issues, [], calls) /\
    w' = mkWorld
           (register_all (file_pipes configuration ++ items) (extensions w))
           (store source [] (lists w))
           (log w ++ List.map registration (file_pipes configuration)
                  ++ List.map registration items
                  ++ NewCheckEngine chosen :: calls
                  ++ report_events host issues verbose).
Proof.
  unfold perform.
  destruct (Nat.eqb (size (styles configuration)) 0); [discriminate|].
  unfold bind at 1. unfold lift at 1.
  destruct (select_styles configuration style) as [chosen|e];
    [|discriminate].
  unfold bind at 1.
  destruct (register_pipelines host configuration map_extension w)
    as [[[[]|e] w1]|] eqn:Hreg; try discriminate.
  apply register_pipelines_returns in Hreg as (items & Hparsed & ->).
  unfold bind at 1. rewrite process_spec. simpl.
  destruct chosen as [|first others]; [discriminate|].
  destruct (work_list host fuel _ _ _ _ _)
    as [[[[found|e] remaining] calls]|] eqn:Hwork; try discriminate.
  pose proof (work_list_return_empty _ _ _ _ _ _ _ _ _ Hwork) as ->.
  unfold bind at 1. rewrite report_spec. unfold ret. simpl.
  intros [= <- <-]. exists (first :: others), items, calls.
  repeat split; try done.
  f_equal. rewrite <- !app_assoc. reflexivity.
Qed.

(** C6: for every configuration that defines no style, [perform] raises
    its "no styles are defined" error at once: the world is as it was, so
    no engine has been constructed, no pipeline registered and no file
    checked. *)
Theorem perform_no_styles_defined fuel configuration source style
    map_extension verbose w :
  size (styles configuration) = 0 ->
  perform host fuel configuration source style map_extension verbose w
  = Some (Raise (StylistException
                   "No styles are defined by the configuration."), w).
Proof. intros Hsize. unfold perform. by rewrite Hsize. Qed.

(** C7: for every selected-style list that contains a name the
    configuration does not define, [perform] raises an error and leaves the
    world as it was: no pipeline has been registered, no file checked and
    nothing reported. *)
Theorem perform_undefined_style fuel configuration source style
    map_extension verbose w name :
  name ∈ style ->
  styles configuration !! name = None ->
  exists message,
    perform host fuel configuration source style map_extension verbose w
    = Some (Raise (StylistException message), w).
Proof.
  intros Hin Hnone. unfold perform.
  destruct (Nat.eqb (size (styles configuration)) 0); [by eexists|].
  unfold bind at 1. unfold lift at 1.
  destruct (named_styles_undefined _ _ _ Hin Hnone []) as [message Hraise].
  exists message. unfold select_styles.
  destruct style as [|first others]; [inversion Hin|]. by rewrite Hraise.
Qed.

(** C1: with an empty selection, a configuration of exactly one style has
    that style chosen, and [perform] goes on to register the pipelines and
    to check with an engine built from that one style, as the log of a
    call that returns shows; a configuration of
    more than one style makes [perform] raise with the world as it was, so
    before any file is checked. *)
Theorem perform_empty_selection fuel configuration source map_extension
    verbose w :
  (size (styles configuration) = 1 ->
   exists name only,
     styles configuration = {[ name := only ]} /\
     select_styles configuration [] = Return [only] /\
     perform host fuel configuration source [] map_extension verbose w
     = (register_pipelines host configuration map_extension ;;
        issues <- process host fuel source [only] ;;
        report host issues verbose ;;
        ret issues) w /\
     forall issues w',
       perform host fuel configuration source [] map_extension verbose w
       = Some (Return issues, w') ->
       NewCheckEngine [only] ∈ log w') /\
  (1 < size (styles configuration) ->
   perform host fuel configuration source [] map_extension verbose w
   = Some (Raise (StylistException
                    "No style specified and more than one defined."), w)).
Proof.
  split.
  - intros Hsize. destruct (size_one_singleton _ Hsize) as (name & only & Hdef).
    exists name, only. split; [done|].
    pose proof (select_styles_single _ _ _ Hdef) as Hselect.
    split; [done|]. split.
    + unfold perform. rewrite Hsize. cbn [Nat.eqb].
      unfold bind at 1. unfold lift at 1. by rewrite Hselect.
    + intros issues w'
        (chosen & items & calls & Hchosen & _ & _ & ->)%perform_returns.
      rewrite Hselect in Hchosen. injection Hchosen as <-. simpl.
      rewrite !elem_of_app, elem_of_cons. auto.
  - intros Hsize. unfold perform, select_styles.
    destruct (Nat.eqb_spec (size (styles configuration)) 0); [lia|].
    destruct (Nat.eqb_spec (size (styles configuration)) 1); [lia|].
    reflexivity.
Qed.

(** ** Registration order and the report *)

Lemma map_return_inj {A} (xs ys : list A) :
  List.map Return xs = List.map Return ys -> xs = ys.
Proof.
  revert ys. induction xs as [|x xs IH]; intros [|y ys]; simpl;
    try discriminate; [done|].
  intros [= -> Hrest]. by rewrite (IH _ Hrest).
Qed.

(** C2: when the registration of [perform] succeeds, the pipelines of the
    configuration file have been registered first, in order, and those of
    the command line afterwards, in order; the registry is the result of
    these registrations, each overwriting the extension it names; so the
    last command-line mapping of an extension is the one in the registry,
    whatever the configuration file maps that extension to, and that
    registry is still the one in place when [perform] returns. *)
Theorem command_line_mapping_wins configuration map_extension w w' :
  register_pipelines host configuration map_extension w
  = Some (Return tt, w') ->
  exists items,
    List.map parse_pipe_description map_extension = List.map Return items /\
    log w' = log w ++ List.map registration (file_pipes configuration)
                   ++ List.map registration items /\
    extensions w'
    = register_all (file_pipes configuration ++ items) (extensions w) /\
    (forall before extension pipe after,
       items = before ++ (extension, pipe) :: after ->
       extension ∉ after.*1 ->
       extensions w' !! extension = Some pipe) /\
    (forall fuel source style verbose issues w'',
       perform host fuel configuration source style map_extension verbose w
       = Some (Return issues, w'') ->
       extensions w'' = extensions w').
Proof.
  intros (items & Hparsed & ->)%register_pipelines_returns.
  exists items. simpl. repeat split; try done.
  - intros before extension pipe after -> Hlast.
    rewrite app_assoc. by apply register_all_last.
  - intros fuel source style verbose issues w''
      (chosen & items' & calls & _ & Hparsed' & _ & ->)%perform_returns.
    simpl. rewrite Hparsed in Hparsed'.
    by rewrite (map_return_inj _ _ Hparsed').
Qed.




(** ** The traversal *)

Lemma process_returns fuel candidates chosen w issues w' :
  process host fuel candidates chosen w = Some (Return issues, w') ->
  exists calls,
    work_list host fuel chosen (extensions w) (dom (extensions w))
      (default [] (lists w !! candidates)) []
    = Some (Return issues, [], calls) /\
    w' = mkWorld (extensions w) (store candidates [] (lists w))
                 (log w ++ NewCheckEngine chosen :: calls).
Proof.
  rewrite process_spec. destruct chosen as [|first others]; [discriminate|].
  destruct (work_list host fuel _ _ _ _ _)
    as [[[[found|e] remaining] calls]|] eqn:Hwork; try discriminate.
  pose proof (work_list_return_empty _ _ _ _ _ _ _ _ _ Hwork) as ->.
  intros [= <- <-]. by exists calls.
Qed.



Lemma store_lookup l contents heap :
  default [] (store l contents heap !! l) = default [] (Some contents)
  \/ (heap !! l = None /\ store l contents heap = heap).
Proof.
  unfold store. destruct (heap !! l) eqn:Hl; [left|right; done].
  by rewrite lookup_insert_eq.
Qed.

Lemma store_empty l heap : default [] (store l [] heap !! l) = [].
Proof.
  destruct (store_lookup l [] heap) as [->|[Hnone ->]]; [done|].
  by rewrite Hnone.
Qed.

Lemma store_other l other contents heap :
  other <> l -> store l contents heap !! other = heap !! other.
Proof.
  intros Hne. unfold store. destruct (heap !! l); [|done].
  by apply lookup_insert_ne.
Qed.

(** C9: the candidate list is changed in place.  One turn of the loop
    takes the first path off the front of the list object and, when that
    path is a directory, puts its wanted entries at the back; when
    [__process] returns, and so when [perform] returns, the list object is
    empty and no other list object has changed. *)
Theorem candidates_consumed :
  (forall engine hot_extensions candidates issues w file_object rest,
     lists w !! candidates = Some (file_object :: rest) ->
     exists outcome w',
       loop_body host engine hot_extensions candidates issues w
       = Some (outcome, w') /\
       lists w' !! candidates
       = Some (rest ++ if is_dir host file_object
                       then List.filter (wanted host hot_extensions)
                                        (iterdir host file_object)
                       else [])) /\
  (forall fuel candidates chosen w issues w',
     process host fuel candidates chosen w = Some (Return issues, w') ->
     default [] (lists w' !! candidates) = [] /\
     forall other, other <> candidates ->
       lists w' !! other = lists w !! other) /\
  (forall fuel configuration source style map_extension verbose w issues w',
     perform host fuel configuration source style map_extension verbose w
     = Some (Return issues, w') ->
     default [] (lists w' !! source) = [] /\
     forall other, other <> source ->
       lists w' !! other = lists w !! other).
Proof.
  split; [|split].
  - intros engine hot_extensions candidates issues w file_object rest Hqueue.
    rewrite (loop_body_spec _ _ _ _ _ _ _ Hqueue).
    destruct (is_dir host file_object); eexists _, _; (split; [done|]);
      simpl; rewrite ?app_nil_r; apply lookup_insert_eq.
  - intros fuel candidates chosen w issues w'
      (calls & _ & ->)%process_returns. simpl.
    split; [apply store_empty|]. intros other Hne. by apply store_other.
  - intros fuel configuration source style map_extension verbose w issues w'
      (chosen & items & calls & _ & _ & _ & ->)%perform_returns. simpl.
    split; [apply store_empty|]. intros other Hne. by apply store_other.
Qed.

(** As long as the engine returns, the loop deals with the paths at the
    front of the list one by one and puts what they bring at the back. *)
Lemma work_list_turns engine registered hot_extensions :
  forall first fuel second issues outcome remaining calls,
    work_list host fuel engine registered hot_extensions
      (first ++ second) issues
    = Some (outcome, remaining, calls) ->
    (forall q, q ∈ first -> is_dir host q = false ->
       exists found, engine_check host engine registered q = Return found) ->
    exists later,
      length first <= fuel /\
      work_list host (fuel - length first) engine registered hot_extensions
        (second ++ next_level host hot_extensions first)
        (issues ++ gather host engine registered first)
      = Some (outcome, remaining, later) /\
      calls = List.map (visit_event host) first ++ later.
Proof.
  induction first as [|file_object first IH];
    intros fuel second issues outcome remaining calls Hwork Hfirst.
  - exists calls. simpl. rewrite !app_nil_r, Nat.sub_0_r.
    split; [lia|done].
  - destruct fuel as [|fuel]; [discriminate|].
    change (next_level host hot_extensions (file_object :: first))
      with ((if is_dir host file_object
             then List.filter (wanted host hot_extensions)
                              (iterdir host file_object)
             else []) ++ next_level host hot_extensions first).
    change (gather host engine registered (file_object :: first))
      with ((if is_dir host file_object then []
             else match engine_check host engine registered file_object with
                  | Return found => found
                  | Raise _ => []
                  end) ++ gather host engine registered first).
    rewrite map_cons. unfold visit_event at 1.
    change (S fuel - length (file_object :: first))
      with (fuel - length first).
    simpl in Hwork. revert Hwork.
    destruct (is_dir host file_object) eqn:Hdir.
    + destruct (work_list host fuel _ _ _ _ issues)
        as [[[outcome' remaining'] calls']|] eqn:Hrec; [|discriminate].
      intros [= -> <- <-]. rewrite <- app_assoc in Hrec.
      destruct (IH _ _ _ _ _ _ Hrec) as (later & Hfuel & Hnext & ->).
      { intros q Hq. apply Hfirst. by right. }
      exists later. rewrite <- app_assoc in Hnext. simpl.
      split; [lia|done].
    + destruct (Hfirst file_object) as [found Hfound]; [left|done|].
      rewrite Hfound.
      destruct (work_list host fuel _ _ _ _ (issues ++ found))
        as [[[outcome' remaining'] calls']|] eqn:Hrec; [|discriminate].
      intros [= -> <- <-].
      destruct (IH _ _ _ _ _ _ Hrec) as (later & Hfuel & Hnext & ->).
      { intros q Hq. apply Hfirst. by right. }
      exists later. rewrite <- app_assoc in Hnext. simpl.
      split; [lia|done].
Qed.



(** C4, as amended: the issues that [__process] returns are what the engine
    found in each file, one file after the other in the order in which the
    files were handed to the engine, which for a candidate list without
    directories is the order of that list; nothing sorts them. *)
Theorem process_issue_order fuel candidates chosen w issues w' :
  process host fuel candidates chosen w = Some (Return issues, w') ->
  exists calls per_file,
    log w' = log w ++ NewCheckEngine chosen :: calls /\
    List.map (engine_check host chosen (extensions w)) (checked_files calls)
    = List.map Return per_file /\
    issues = concat per_file /\
    ((forall p, p ∈ default [] (lists w !! candidates) ->
        is_dir host p = false) ->
     checked_files calls = default [] (lists w !! candidates)).
Proof.
  intros (calls & Hwork & ->)%process_returns.
  destruct (work_list_issues _ _ _ _ _ _ _ _ _ Hwork)
    as (per_file & Hmap & Hissues).
  exists calls, per_file. simpl. repeat split; try done.
  intros Hfiles. rewrite (work_list_files _ _ _ _ _ _ _ _ _ Hfiles Hwork).
  generalize (default [] (lists w !! candidates)).
  induction l as [|p l IH]; simpl; [done|by rewrite IH].
Qed.

Lemma main_spec fuel command_line w :
  main host fuel command_line w
  = match help_tables (parser_keys host) (language_name command_line)
            (preprocessor_keys host) (preprocessor_name command_line) with
    | None => Some (Raise ValueError, handler_added w)
    | Some tables =>
        match parse_args command_line tables with
        | Raise e => Some (Raise e, handler_added w)
        | Return arguments =>
            match load_configuration host (arg_configuration arguments) with
            | Raise e => Some (Raise e, level_set w (arg_verbose arguments))
            | Return configuration =>
                match perform host fuel configuration (arg_source arguments)
                        (arg_style arguments) (arg_map_extension arguments)
                        (arg_verbose arguments)
                        (level_set w (arg_verbose arguments)) with
                | Some (Return issues, w') =>
                    Some (Raise (SystemExit (match issues with
                                             | [] => 0
                                             | _ :: _ => 1
                                             end)), w')
                | Some (Raise e, w') => Some (Raise e, w')
                | None => None
                end
            end
        end
    end.
Proof.
  unfold main. unfold bind at 1. unfold emit at 1. unfold bind at 1.
  unfold parse_cli, handler_added.
  destruct (help_tables _ _ _ _) as [tables|]; [|reflexivity].
  unfold lift at 1.
  destruct (parse_args command_line tables) as [arguments|e];
    [|reflexivity].
  unfold bind at 1.
  assert (Hlevel :
    (if arg_verbose arguments
     then emit (SetLevel INFO) else emit (SetLevel WARNING))
      (mkWorld (extensions w) (lists w) (log w ++ [AddHandler]))
    = Some (Return tt, level_set w (arg_verbose arguments))).
  { unfold level_set. destruct (arg_verbose arguments); unfold emit; simpl;
      by rewrite <- app_assoc. }
  rewrite Hlevel. unfold bind at 1. unfold lift at 1.
  destruct (load_configuration host (arg_configuration arguments))
    as [configuration|e]; [|reflexivity].
  unfold bind at 1.
  destruct (perform host fuel configuration _ _ _ _ _)
    as [[[issues|e] w']|]; try reflexivity.
  by destruct issues.
Qed.

(** C3, as amended: in every run in which [__parse_cli] returns the
    arguments, [load_configuration] the configuration and [perform] its
    list of issues, [main] ends with [sys.exit(1)] if the list is not empty
    and with [sys.exit(0)] if it is, so the exit status is non-zero exactly
    when there is an issue. *)
Theorem main_exit_status fuel command_line w tables arguments configuration
    issues w' :
  help_tables (parser_keys host) (language_name command_line)
    (preprocessor_keys host) (preprocessor_name command_line)
  = Some tables ->
  parse_args command_line tables = Return arguments ->
  load_configuration host (arg_configuration arguments)
  = Return configuration ->
  perform host fuel configuration (arg_source arguments)
    (arg_style arguments) (arg_map_extension arguments)
    (arg_verbose arguments) (level_set w (arg_verbose arguments))
  = Some (Return issues, w') ->
  exists outcome,
    main host fuel command_line w = Some (outcome, w') /\
    outcome = Raise (SystemExit (match issues with
                                 | [] => 0
                                 | _ :: _ => 1
                                 end)) /\
    (exit_status outcome <> 0 <-> 0 < length issues).
Proof.
  intros Htables Hparse Hload Hperform.
  eexists. split; [|split; [reflexivity|]].
  - by rewrite main_spec, Htables, Hparse, Hload, Hperform.
  - destruct issues; simpl; split; intros; try done; lia.
Qed.

End Properties.

(** C4 as first stated (issues sorted by file path) fails: two files
    given on the command line in the order [b.f90], [a.f90] have their
    issues returned in that order. *)
Lemma process_not_sorted :
  exists issues w',
    perform Example.host 2 Example.one_style 0 [] [] false
      (Example.world ["b.f90"; "a.f90"])
    = Some (Return issues, w') /\
    List.map issue_path issues = ["b.f90"; "a.f90"] /\
    sorted_by_path issues = false.
Proof. eexists _, _. split; [vm_compute; reflexivity|]. by split. Qed.

(** C3 as first stated (for every run) fails: with a configuration that
    defines no style, [main] ends with the uncaught error of [perform],
    so with a non-zero status, and not one issue has been reported or one
    file checked. *)
Lemma main_error_exit :
  main Example.unconfigured_host 5 Example.command_line
    (Example.world ["README"])
  = Some (Raise (StylistException
                   "No styles are defined by the configuration."),
          Example.unconfigured) /\
  exit_status (@Raise unit
                 (StylistException
                    "No styles are defined by the configuration.")) = 1 /\
  reported Example.unconfigured = 0 /\
  checked_files (log Example.unconfigured) = [].
Proof. split; [vm_compute; reflexivity|]. by repeat split. Qed.


(** ** Two runs *)

Lemma bind_ext {A B} (m1 m2 : M A) (f1 f2 : A -> M B) w :
  m1 w = m2 w ->
  (forall a w', f1 a w' = f2 a w') ->
  bind m1 f1 w = bind m2 f2 w.
Proof.
  intros Hm Hf. unfold bind. rewrite Hm.
  destruct (m2 w) as [[[a|e] w']|]; auto.
Qed.

Lemma for_each_ext {A} (body1 body2 : A -> M unit) (xs : list A) :
  (forall x w, body1 x w = body2 x w) ->
  forall w, for_each xs body1 w = for_each xs body2 w.
Proof.
  intros Hbody. induction xs as [|x xs IH]; intros w; simpl; [done|].
  apply bind_ext; auto.
Qed.

Section TwoHosts.

Context (h1 h2 : Host) (Hsame : same_host h1 h2).

Lemma add_extension_same extension pipe w :
  add_extension h1 extension pipe w = add_extension h2 extension pipe w.
Proof.
  destruct Hsame as (_ & _ & _ & Hparsers & Hpreprocessors & _).
  unfold add_extension, unknown_key. by rewrite Hparsers, Hpreprocessors.
Qed.

Lemma register_pipelines_same configuration map_extension w :
  register_pipelines h1 configuration map_extension w
  = register_pipelines h2 configuration map_extension w.
Proof.
  unfold register_pipelines. apply bind_ext.
  - apply for_each_ext. intros item w'. apply add_extension_same.
  - intros _ w'. apply for_each_ext. intros mapping w''.
    apply bind_ext; [done|]. intros item w3. apply add_extension_same.
Qed.

Lemma wanted_same hot_extensions leaf :
  wanted h1 hot_extensions leaf = wanted h2 hot_extensions leaf.
Proof.
  destruct Hsame as (Hdir & _ & Hsuffix & _).
  unfold wanted. by rewrite Hdir, Hsuffix.
Qed.

Lemma work_list_same engine registered hot_extensions :
  forall fuel queue issues,
    work_list h1 fuel engine registered hot_extensions queue issues
    = work_list h2 fuel engine registered hot_extensions queue issues.
Proof.
  destruct Hsame as (Hdir & Hiter & _ & _ & _ & Hcheck & _).
  induction fuel as [|fuel IH]; intros queue issues;
    destruct queue as [|file_object rest]; simpl; try done.
  rewrite Hdir, Hiter, Hcheck.
  rewrite (filter_ext _ _ (wanted_same hot_extensions)).
  destruct (is_dir h2 file_object); [by rewrite IH|].
  destruct (engine_check h2 engine registered file_object); [|done].
  by rewrite IH.
Qed.

Lemma process_same fuel candidates chosen w :
  process h1 fuel candidates chosen w = process h2 fuel candidates chosen w.
Proof. rewrite !process_spec. by rewrite work_list_same. Qed.

Lemma report_same issues verbose w :
  report h1 issues verbose w = report h2 issues verbose w.
Proof.
  destruct Hsame as (_ & _ & _ & _ & _ & _ & Hstr & _).
  rewrite !report_spec. unfold report_events.
  rewrite (map_ext _ (fun issue => Print Stderr (issue_str h2 issue)));
    [done|].
  intros issue. by rewrite Hstr.
Qed.

Lemma perform_same fuel configuration source style map_extension verbose w :
  perform h1 fuel configuration source style map_extension verbose w
  = perform h2 fuel configuration source style map_extension verbose w.
Proof.
  unfold perform.
  destruct (Nat.eqb (size (styles configuration)) 0); [done|].
  apply bind_ext; [done|]. intros chosen w1.
  apply bind_ext; [apply register_pipelines_same|]. intros _ w2.
  apply bind_ext; [apply process_same|]. intros issues w3.
  apply bind_ext; [apply report_same|]. done.
Qed.

End TwoHosts.

Section Fuel.

Context (host : Host).

Lemma bind_more {A B} (m m' : M A) (f f' : A -> M B) w result :
  (forall r, m w = Some r -> m' w = Some r) ->
  (forall a w1 r, f a w1 = Some r -> f' a w1 = Some r) ->
  bind m f w = Some result ->
  bind m' f' w = Some result.
Proof.
  intros Hm Hf. unfold bind.
  destruct (m w) as [[[a|e] w1]|] eqn:Hrun; [| |discriminate];
    rewrite (Hm _ eq_refl); auto.
Qed.

Lemma process_more_fuel fuel fuel' candidates chosen w result :
  fuel <= fuel' ->
  process host fuel candidates chosen w = Some result ->
  process host fuel' candidates chosen w = Some result.
Proof.
  intros Hle. rewrite !process_spec.
  destruct chosen as [|first others]; [done|].
  destruct (work_list host fuel _ _ _ _ _) as [found|] eqn:Hwork;
    [|discriminate].
  by rewrite (work_list_more_fuel _ _ _ _ _ _ _ _ _ Hle Hwork).
Qed.

Lemma perform_more_fuel fuel fuel' configuration source style map_extension
    verbose w result :
  fuel <= fuel' ->
  perform host fuel configuration source style map_extension verbose w
  = Some result ->
  perform host fuel' configuration source style map_extension verbose w
  = Some result.
Proof.
  intros Hle. unfold perform.
  destruct (Nat.eqb (size (styles configuration)) 0); [done|].
  apply bind_more; [done|]. intros chosen w1 r1.
  apply bind_more; [done|]. intros _ w2 r2.
  apply bind_more; [|done]. intros r3. by apply process_more_fuel.
Qed.

End Fuel.

(** Two runs with hosts that answer alike, directory listings included,
    end alike whatever fuel each has. *)
Lemma perform_deterministic h1 h2 fuel1 fuel2 configuration source style
    map_extension verbose w result1 result2 :
  same_host h1 h2 ->
  perform h1 fuel1 configuration source style map_extension verbose w
  = Some result1 ->
  perform h2 fuel2 configuration source style map_extension verbose w
  = Some result2 ->
  result1 = result2.
Proof.
  intros Hsame Hrun1 Hrun2.
  rewrite <- (perform_same h1 h2 Hsame) in Hrun2.
  apply (perform_more_fuel h1 _ (Nat.max fuel1 fuel2)) in Hrun1; [|lia].
  apply (perform_more_fuel h1 _ (Nat.max fuel1 fuel2)) in Hrun2; [|lia].
  congruence.
Qed.

(** ** Two runs that list directories in different orders *)

Lemma registration_no_print events :
  forallb is_registration events = true ->
  forallb (fun ev => negb (is_print ev)) events = true.
Proof.
  rewrite !forallb_forall. intros Hreg ev Hin.
  specialize (Hreg ev Hin). by destruct ev.
Qed.

Lemma visit_no_print events :
  forallb is_visit events = true ->
  forallb (fun ev => negb (is_print ev)) events = true.
Proof.
  rewrite !forallb_forall. intros Hvisit ev Hin.
  specialize (Hvisit ev Hin). by destruct ev.
Qed.

Lemma registrations_only items :
  forallb is_registration (List.map registration items) = true.
Proof. by induction items. Qed.

Lemma bool_filter_Permutation {A} (f : A -> bool) (l1 l2 : list A) :
  Permutation l1 l2 -> Permutation (List.filter f l1) (List.filter f l2).
Proof.
  induction 1 as [|x l1 l2 _ IH|x y l|l1 l2 l3 _ IH1 _ IH2]; simpl.
  - constructor.
  - destruct (f x); [by constructor|done].
  - destruct (f x), (f y); try done; constructor.
  - by etransitivity.
Qed.

Lemma flat_map_Permutation {A B} (f g : A -> list B) (l1 l2 : list A) :
  (forall x, Permutation (f x) (g x)) ->
  Permutation l1 l2 -> Permutation (flat_map f l1) (flat_map g l2).
Proof.
  intros Hfg.
  assert (Hpoint : forall l, Permutation (flat_map f l) (flat_map g l)).
  { induction l as [|z l IH]; simpl; [constructor|].
    by apply Permutation_app. }
  induction 1 as [|x l1 l2 _ IH|x y l|l1 l2 l3 _ IH1 _ IH2]; simpl.
  - constructor.
  - by apply Permutation_app.
  - rewrite !app_assoc. apply Permutation_app; [|done].
    rewrite (Hfg x), (Hfg y). apply Permutation_app_comm.
  - etransitivity; [exact IH1|].
    etransitivity; [symmetry; apply Hpoint|exact IH2].
Qed.

Section Shuffled.

Context (h1 h2 : Host) (Hfiles : same_files h1 h2).

Lemma wanted_shuffled hot_extensions leaf :
  wanted h1 hot_extensions leaf = wanted h2 hot_extensions leaf.
Proof.
  destruct Hfiles as (Hdir & _ & Hsuffix & _).
  unfold wanted. by rewrite Hdir, Hsuffix.
Qed.

Lemma next_level_shuffled hot_extensions queue1 queue2 :
  Permutation queue1 queue2 ->
  Permutation (next_level h1 hot_extensions queue1)
              (next_level h2 hot_extensions queue2).
Proof.
  destruct Hfiles as (Hdir & Hiter & _).
  apply flat_map_Permutation. intros p. rewrite Hdir.
  destruct (is_dir h2 p); [|done].
  rewrite (filter_ext _ _ (wanted_shuffled hot_extensions)).
  apply bool_filter_Permutation, Hiter.
Qed.

Lemma gather_shuffled engine registered queue1 queue2 :
  Permutation queue1 queue2 ->
  Permutation (gather h1 engine registered queue1)
              (gather h2 engine registered queue2).
Proof.
  destruct Hfiles as (Hdir & _ & _ & _ & _ & Hcheck & _).
  apply flat_map_Permutation. intros p. by rewrite Hdir, Hcheck.
Qed.

End Shuffled.

Section Returning.

Context (host : Host).

(** In a call that returns the engine has returned for every file of the
    list. *)
Lemma work_list_return_checks engine registered hot_extensions :
  forall fuel queue issues found remaining calls,
    work_list host fuel engine registered hot_extensions queue issues
    = Some (Return found, remaining, calls) ->
    forall p, p ∈ queue -> is_dir host p = false ->
      exists checked, engine_check host engine registered p = Return checked.
Proof.
  induction fuel as [|fuel IH]; intros queue issues found remaining calls;
    destruct queue as [|file_object rest]; simpl; try congruence.
  - intros _ p Hp. inversion Hp.
  - intros _ p Hp. inversion Hp.
  - destruct (is_dir host file_object) eqn:Hdir.
    + destruct (work_list host fuel _ _ _ _ issues)
        as [[[outcome remaining'] calls']|] eqn:Hrec; [|discriminate].
      intros [= -> <- <-] p [->|Hp]%elem_of_cons Hfile; [congruence|].
      eapply IH; [exact Hrec| |done]. apply elem_of_app. by left.
    + destruct (engine_check host engine registered file_object)
        as [checked|e] eqn:Hcheck; [|discriminate].
      destruct (work_list host fuel _ _ _ _ _)
        as [[[outcome remaining'] calls']|] eqn:Hrec; [|discriminate].
      intros [= -> <- <-] p [->|Hp]%elem_of_cons Hfile; [by eexists|].
      eapply IH; [exact Hrec|done|done].
Qed.

(** A call that returns on a list that is not empty goes on with what the
    paths of the list have brought, on less fuel. *)
Lemma work_list_next engine registered hot_extensions fuel queue issues
    found remaining calls :
  queue <> [] ->
  work_list host fuel engine registered hot_extensions queue issues
  = Some (Return found, remaining, calls) ->
  exists fuel' later,
    fuel' < fuel /\
    work_list host fuel' engine registered hot_extensions
      (next_level host hot_extensions queue)
      (issues ++ gather host engine registered queue)
    = Some (Return found, remaining, later).
Proof.
  intros Hqueue Hwork.
  pose proof (work_list_return_checks _ _ _ _ _ _ _ _ _ Hwork) as Hchecks.
  rewrite <- (app_nil_r queue) in Hwork.
  apply work_list_turns in Hwork as (later & Hfuel & Hnext & _); [|done].
  exists (fuel - length queue), later. split; [|done].
  destruct queue; [done|]. simpl in *. lia.
Qed.

End Returning.

Lemma work_list_shuffled h1 h2 engine registered hot_extensions :
  same_files h1 h2 ->
  forall bound fuel1 fuel2 queue1 queue2 issues1 issues2 found1 found2
         remaining1 remaining2 calls1 calls2,
    fuel1 <= bound ->
    Permutation queue1 queue2 ->
    Permutation issues1 issues2 ->
    work_list h1 fuel1 engine registered hot_extensions queue1 issues1
    = Some (Return found1, remaining1, calls1) ->
    work_list h2 fuel2 engine registered hot_extensions queue2 issues2
    = Some (Return found2, remaining2, calls2) ->
    Permutation found1 found2.
Proof.
  intros Hfiles.
  induction bound as [|bound IH];
    intros fuel1 fuel2 queue1 queue2 issues1 issues2 found1 found2
           remaining1 remaining2 calls1 calls2 Hbound Hqueue Hissues
           Hwork1 Hwork2.
  - destruct queue1 as [|p queue1].
    + apply Permutation_nil in Hqueue as ->.
      rewrite work_list_nil in Hwork1, Hwork2. congruence.
    + assert (fuel1 = 0) as -> by lia. discriminate.
  - destruct queue1 as [|p queue1].
    + apply Permutation_nil in Hqueue as ->.
      rewrite work_list_nil in Hwork1, Hwork2. congruence.
    + apply work_list_next in Hwork1
        as (fuel1' & later1 & Hless1 & Hnext1); [|done].
      apply work_list_next in Hwork2
        as (fuel2' & later2 & _ & Hnext2).
      2: { intros ->. symmetry in Hqueue.
           by apply Permutation_nil in Hqueue. }
      refine (IH fuel1' fuel2' _ _ _ _ _ _ _ _ _ _ _ _ _ Hnext1 Hnext2).
      * lia.
      * by apply next_level_shuffled.
      * apply Permutation_app; [done|]. by apply gather_shuffled.
Qed.

Lemma printed_app stream events1 events2 :
  printed stream (events1 ++ events2)
  = printed stream events1 ++ printed stream events2.
Proof.
  induction events1 as [|ev events1 IH]; [done|].
  destruct ev as [| | | | | |[] line], stream; simpl; by rewrite ?IH.
Qed.

Lemma printed_silent stream events :
  forallb (fun ev => negb (is_print ev)) events = true ->
  printed stream events = [].
Proof.
  induction events as [|ev events IH]; [done|].
  destruct ev; simpl; try done. 
Qed.

Lemma printed_report host issues verbose :
  printed Stderr (report_events host issues verbose)
  = List.map (issue_str host) issues /\
  printed Stdout (report_events host issues verbose)
  = if Nat.ltb 0 (length issues) || verbose
    then [summary (length issues)] else [].
Proof.
  unfold report_events. rewrite !printed_app. split.
  - replace (printed Stderr
               (if Nat.ltb 0 (length issues) || verbose
                then [Print Stdout (summary (length issues))] else []))
      with (@nil string)
      by (by destruct (Nat.ltb 0 (length issues) || verbose)).
    rewrite app_nil_r. induction issues as [|issue issues IH]; simpl;
      [done|by rewrite IH].
  - replace (printed Stdout
               (List.map (fun issue => Print Stderr (issue_str host issue))
                         issues))
      with (@nil string) by (by induction issues).
    by destruct (Nat.ltb 0 (length issues) || verbose).
Qed.

(** What a call of [perform] that returns has printed. *)
Lemma perform_printed host fuel configuration source style map_extension
    verbose w issues w' :
  perform host fuel configuration source style map_extension verbose w
  = Some (Return issues, w') ->
  printed Stderr (log w')
  = printed Stderr (log w) ++ List.map (issue_str host) issues /\
  printed Stdout (log w')
  = printed Stdout (log w)
    ++ (if Nat.ltb 0 (length issues) || verbose
        then [summary (length issues)] else []).
Proof.
  intros (chosen & items & calls & _ & _ & Hwork & ->)%perform_returns.
  simpl. apply work_list_calls in Hwork.
  assert (Hsilent : forall stream,
    printed stream
      (List.map registration (file_pipes configuration)
       ++ List.map registration items ++ NewCheckEngine chosen :: calls)
    = []).
  { intros stream. apply printed_silent.
    rewrite !forallb_app. simpl.
    rewrite !registration_no_print by apply registrations_only.
    by rewrite visit_no_print. }
  destruct (printed_report host issues verbose) as [Hstderr Hstdout].
  assert (Hlog :
    log w ++ List.map registration (file_pipes configuration)
      ++ List.map registration items
      ++ NewCheckEngine chosen :: calls ++ report_events host issues verbose
    = log w
      ++ (List.map registration (file_pipes configuration)
          ++ List.map registration items ++ NewCheckEngine chosen :: calls)
      ++ report_events host issues verbose).
  { rewrite <- !app_assoc. reflexivity. }
  rewrite Hlog.
  set (silent := List.map registration (file_pipes configuration)
                 ++ List.map registration items
                 ++ NewCheckEngine chosen :: calls) in *.
  rewrite !printed_app, !Hsilent, Hstderr, Hstdout. by split.
Qed.

(** C5, as amended: two runs of [perform] on the same configuration,
    arguments and world, over the same files, that both return, return the
    same issues up to their order: the two lists are permutations of each
    other, and so are the lines printed on stderr, while the summary on
    stdout is the same; the registry and the list objects end alike.  When
    moreover every directory lists its entries in the same order in both
    runs, the two runs return the same list and end in the same world. *)
Theorem perform_same_issues h1 h2 fuel1 fuel2 configuration source style
    map_extension verbose w issues1 issues2 w1 w2 :
  same_files h1 h2 ->
  perform h1 fuel1 configuration source style map_extension verbose w
  = Some (Return issues1, w1) ->
  perform h2 fuel2 configuration source style map_extension verbose w
  = Some (Return issues2, w2) ->
  Permutation issues1 issues2 /\
  Permutation (printed Stderr (log w1)) (printed Stderr (log w2)) /\
  printed Stdout (log w1) = printed Stdout (log w2) /\
  extensions w1 = extensions w2 /\
  lists w1 = lists w2 /\
  ((forall p, iterdir h1 p = iterdir h2 p) -> issues1 = issues2 /\ w1 = w2).
Proof.
  intros Hfiles Hrun1 Hrun2.
  assert (Hissues : Permutation issues1 issues2).
  { pose proof Hrun1 as
      (chosen & items & calls & Hselect & Hparsed & Hwork & _)%perform_returns.
    pose proof Hrun2 as
      (chosen' & items' & calls' & Hselect' & Hparsed' & Hwork' & _)
        %perform_returns.
    rewrite Hselect in Hselect'. injection Hselect' as <-.
    rewrite Hparsed in Hparsed'. apply map_return_inj in Hparsed' as <-.
    by eapply (work_list_shuffled h1 h2 _ _ _ Hfiles fuel1 fuel1 fuel2). }
  destruct (perform_printed _ _ _ _ _ _ _ _ _ _ Hrun1) as [Herr1 Hout1].
  destruct (perform_printed _ _ _ _ _ _ _ _ _ _ Hrun2) as [Herr2 Hout2].
  split; [done|]. split; [|split; [|split; [|split]]].
  - rewrite Herr1, Herr2. apply Permutation_app_head.
    destruct Hfiles as (_ & _ & _ & _ & _ & _ & Hstr & _).
    rewrite (map_ext _ _ Hstr). by apply Permutation_map.
  - rewrite Hout1, Hout2. by rewrite (Permutation_length Hissues).
  - apply perform_returns in Hrun1 as (? & items & ? & _ & Hparsed & _ & ->).
    apply perform_returns in Hrun2 as (? & items' & ? & _ & Hparsed' & _ & ->).
    rewrite Hparsed in Hparsed'. by apply map_return_inj in Hparsed' as <-.
  - apply perform_returns in Hrun1 as (? & ? & ? & _ & _ & _ & ->).
    by apply perform_returns in Hrun2 as (? & ? & ? & _ & _ & _ & ->).
  - intros Hiter.
    assert (Hsame : same_host h1 h2).
    { destruct Hfiles as (Hdir & _ & Hrest). by split. }
    pose proof (perform_deterministic _ _ _ _ _ _ _ _ _ _ _ _
                  Hsame Hrun1 Hrun2) as Hequal.
    by injection Hequal as -> ->.
Qed.

(** C5 as first stated (identical output) fails: with [src] listing
    [b.f90] before [a.f90] in one run and after it in the other, the same
    files and styles give the same two issues in two different orders. *)
Lemma perform_order_varies :
  same_files Example.host Example.shuffled_host /\
  perform Example.host 5 Example.one_style 0 [] [] false
    (Example.world ["src"])
  = Some (Return [Example.an_issue "src/b.f90"; Example.an_issue "src/a.f90"],
          Example.listed) /\
  perform Example.shuffled_host 5 Example.one_style 0 [] [] false
    (Example.world ["src"])
  = Some (Return [Example.an_issue "src/a.f90"; Example.an_issue "src/b.f90"],
          Example.listed_shuffled) /\
  [Example.an_issue "src/b.f90"; Example.an_issue "src/a.f90"]
  <> [Example.an_issue "src/a.f90"; Example.an_issue "src/b.f90"] /\
  printed Stderr (log Example.listed)
  <> printed Stderr (log Example.listed_shuffled).
Proof.
  split.
  { repeat split. intros p. simpl.
    destruct (String.eqb p "src"); [|constructor].
    apply perm_swap. }
  split; [vm_compute; reflexivity|]. split; [vm_compute; reflexivity|].
  split; discriminate.
Qed.

(** * The properties on the example host *)

Lemma perform_no_styles_defined_witness :
  size (styles Example.no_styles) = 0 /\
  perform Example.host 5 Example.no_styles 0 ["fortran"] ["f90:plain"] true
    (Example.world ["src"])
  = Some (Raise (StylistException
                   "No styles are defined by the configuration."),
          Example.world ["src"]).
Proof.
  split; [reflexivity|].
  apply (perform_no_styles_defined Example.host). reflexivity.
Defined.

Lemma perform_undefined_style_witness :
  "d" ∈ ["c"; "d"] /\
  styles Example.two_styles !! "d" = None /\
  exists message,
    perform Example.host 5 Example.two_styles 0 ["c"; "d"] ["f90:plain"]
      false (Example.world ["src"])
    = Some (Raise (StylistException message), Example.world ["src"]).
Proof.
  assert (Hin : "d" ∈ ["c"; "d"]) by (right; left).
  assert (Hnone : styles Example.two_styles !! "d" = None)
    by (vm_compute; reflexivity).
  split; [exact Hin|]. split; [exact Hnone|].
  exact (perform_undefined_style Example.host 5 Example.two_styles 0
           ["c"; "d"] ["f90:plain"] false (Example.world ["src"]) "d"
           Hin Hnone).
Defined.

Lemma perform_empty_selection_witness :
  (size (styles Example.one_style) = 1 /\
   exists name only,
     styles Example.one_style = {[ name := only ]} /\
     select_styles Example.one_style [] = Return [only] /\
     perform Example.host 5 Example.one_style 0 [] ["f90:plain"] false
       (Example.world ["src"])
     = (register_pipelines Example.host Example.one_style ["f90:plain"] ;;
        issues <- process Example.host 5 0 [only] ;;
        report Example.host issues false ;;
        ret issues) (Example.world ["src"]) /\
     forall issues w',
       perform Example.host 5 Example.one_style 0 [] ["f90:plain"] false
         (Example.world ["src"])
       = Some (Return issues, w') ->
       NewCheckEngine [only] ∈ log w') /\
  (1 < size (styles Example.two_styles) /\
   perform Example.host 5 Example.two_styles 0 [] ["f90:plain"] false
     (Example.world ["src"])
   = Some (Raise (StylistException
                    "No style specified and more than one defined."),
           Example.world ["src"])).
Proof.
  split.
  - assert (Hsize : size (styles Example.one_style) = 1) by reflexivity.
    split; [exact Hsize|].
    exact (proj1 (perform_empty_selection Example.host 5 Example.one_style
                    0 ["f90:plain"] false (Example.world ["src"])) Hsize).
  - assert (Hsize : 1 < size (styles Example.two_styles))
      by (vm_compute; lia).
    split; [exact Hsize|].
    exact (proj2 (perform_empty_selection Example.host 5 Example.two_styles
                    0 ["f90:plain"] false (Example.world ["src"])) Hsize).
Defined.

Lemma command_line_mapping_wins_witness :
  register_pipelines Example.host Example.one_style ["f90:plain"]
    (Example.world [])
  = Some (Return tt, Example.registered) /\
  extensions Example.registered !! "f90" = Some (mkFilePipe "plain" []).
Proof.
  assert (Hrun : register_pipelines Example.host Example.one_style
                   ["f90:plain"] (Example.world [])
                 = Some (Return tt, Example.registered))
    by (vm_compute; reflexivity).
  split; [exact Hrun|].
  destruct (command_line_mapping_wins Example.host Example.one_style
              ["f90:plain"] (Example.world []) Example.registered Hrun)
    as (items & Hparsed & _ & _ & Hlast & _).
  destruct items as [|item [|? ?]]; try discriminate.
  injection Hparsed as <-.
  apply (Hlast [] "f90" (mkFilePipe "plain" []) []); [reflexivity|].
  apply not_elem_of_nil.
Defined.


Lemma candidates_consumed_witness :
  process Example.host 5 0 [Example.fortran] Example.ready
  = Some (Return Example.found, Example.processed) /\
  lists Example.ready !! 0 = Some ["src"; "README"] /\
  default [] (lists Example.processed !! 0) = [] /\
  (forall other, other <> 0 ->
     lists Example.processed !! other = lists Example.ready !! other).
Proof.
  assert (Hrun : process Example.host 5 0 [Example.fortran] Example.ready
                 = Some (Return Example.found, Example.processed))
    by (vm_compute; reflexivity).
  split; [exact Hrun|]. split; [reflexivity|].
  exact (proj1 (proj2 (candidates_consumed Example.host))
           5 0 [Example.fortran] Example.ready Example.found
           Example.processed Hrun).
Defined.

Lemma example_bounded_below :
  bounded_below Example.host (dom (extensions Example.ready)) Example.weight.
Proof.
  intros d Hdir. apply String.eqb_eq in Hdir as ->. vm_compute. lia.
Defined.


Lemma process_issue_order_witness :
  process Example.host 5 0 [Example.fortran] Example.ready
  = Some (Return Example.found, Example.processed) /\
  exists calls per_file,
    log Example.processed
    = log Example.ready ++ NewCheckEngine [Example.fortran] :: calls /\
    List.map (engine_check Example.host [Example.fortran]
                (extensions Example.ready)) (checked_files calls)
    = List.map Return per_file /\
    Example.found = concat per_file /\
    ((forall p, p ∈ default [] (lists Example.ready !! 0) ->
        is_dir Example.host p = false) ->
     checked_files calls = default [] (lists Example.ready !! 0)).
Proof.
  assert (Hrun : process Example.host 5 0 [Example.fortran] Example.ready
                 = Some (Return Example.found, Example.processed))
    by (vm_compute; reflexivity).
  split; [exact Hrun|].
  exact (process_issue_order Example.host 5 0 [Example.fortran]
           Example.ready Example.found Example.processed Hrun).
Defined.

Lemma main_exit_status_witness :
  help_tables (parser_keys Example.host)
    (language_name Example.command_line)
    (preprocessor_keys Example.host)
    (preprocessor_name Example.command_line)
  = Some (["fortran - Fortran"; "c       - C"; "plain   - Plain text"],
          ["cpp - Plain text"; "fpp - Plain text"]) /\
  parse_args Example.command_line
    (["fortran - Fortran"; "c       - C"; "plain   - Plain text"],
     ["cpp - Plain text"; "fpp - Plain text"])
  = Return Example.arguments /\
  load_configuration Example.host (arg_configuration Example.arguments)
  = Return Example.one_style /\
  exists outcome,
    main Example.host 5 Example.command_line (Example.world ["README"])
    = Some (outcome, Example.finished) /\
    outcome = Raise (SystemExit 1) /\
    (exit_status outcome <> 0 <-> 0 < length [Example.an_issue "README"]).
Proof.
  assert (Htables : help_tables (parser_keys Example.host)
            (language_name Example.command_line)
            (preprocessor_keys Example.host)
            (preprocessor_name Example.command_line)
          = Some (["fortran - Fortran"; "c       - C";
                   "plain   - Plain text"],
                  ["cpp - Plain text"; "fpp - Plain text"]))
    by reflexivity.
  assert (Hparse : parse_args Example.command_line
            (["fortran - Fortran"; "c       - C"; "plain   - Plain text"],
             ["cpp - Plain text"; "fpp - Plain text"])
          = Return Example.arguments) by reflexivity.
  assert (Hload : load_configuration Example.host
                    (arg_configuration Example.arguments)
                  = Return Example.one_style) by reflexivity.
  split; [exact Htables|]. split; [exact Hparse|]. split; [exact Hload|].
  apply (main_exit_status Example.host 5 Example.command_line
           (Example.world ["README"]) _ Example.arguments Example.one_style
           [Example.an_issue "README"] Example.finished Htables Hparse
           Hload).
  vm_compute. reflexivity.
Defined.

Lemma example_same_files : same_files Example.host Example.shuffled_host.
Proof.
  repeat split. intros p. simpl.
  destruct (String.eqb p "src"); [|constructor].
  apply perm_swap.
Defined.

Lemma perform_same_issues_witness :
  same_files Example.host Example.shuffled_host /\
  perform Example.host 5 Example.one_style 0 [] [] false
    (Example.world ["src"])
  = Some (Return [Example.an_issue "src/b.f90"; Example.an_issue "src/a.f90"],
          Example.listed) /\
  perform Example.shuffled_host 7 Example.one_style 0 [] [] false
    (Example.world ["src"])
  = Some (Return [Example.an_issue "src/a.f90"; Example.an_issue "src/b.f90"],
          Example.listed_shuffled) /\
  Permutation
    [Example.an_issue "src/b.f90"; Example.an_issue "src/a.f90"]
    [Example.an_issue "src/a.f90"; Example.an_issue "src/b.f90"] /\
  Permutation (printed Stderr (log Example.listed))
              (printed Stderr (log Example.listed_shuffled)) /\
  printed Stdout (log Example.listed)
  = printed Stdout (log Example.listed_shuffled).
Proof.
  assert (Hrun1 : perform Example.host 5 Example.one_style 0 [] [] false
                    (Example.world ["src"])
                  = Some (Return [Example.an_issue "src/b.f90";
                                  Example.an_issue "src/a.f90"],
                          Example.listed))
    by (vm_compute; reflexivity).
  assert (Hrun2 : perform Example.shuffled_host 7 Example.one_style 0 [] []
                    false (Example.world ["src"])
                  = Some (Return [Example.an_issue "src/a.f90";
                                  Example.an_issue "src/b.f90"],
                          Example.listed_shuffled))
    by (vm_compute; reflexivity).
  split; [exact example_same_files|]. split; [exact Hrun1|].
  split; [exact Hrun2|].
  destruct (perform_same_issues Example.host Example.shuffled_host 5 7
              Example.one_style 0 [] [] false (Example.world ["src"])
              _ _ _ _ example_same_files Hrun1 Hrun2)
    as (Hissues & Hstderr & Hstdout & _).
  split; [exact Hissues|]. split; [exact Hstderr|exact Hstdout].
Defined.

(** * Further properties of the driver *)

(** ** Style selection *)

Lemma named_styles_returns defined style :
  forall chosen result,
    named_styles defined style chosen = Return result <->
    exists found,
      result = chosen ++ found /\
      Forall2 (fun name item => defined !! name = Some item) style found.
Proof.
  induction style as [|name style IH]; intros chosen result; simpl.
  - split.
    + intros [= <-]. exists []. by rewrite app_nil_r.
    + intros (found & -> & ->%Forall2_nil_inv_l). by rewrite app_nil_r.
  - destruct (defined !! name) as [item|] eqn:Hname.
    + rewrite IH. split.
      * intros (found & -> & Hall). exists (item :: found).
        rewrite <- app_assoc. split; [done|]. by constructor.
      * intros (found & -> & Hall).
        apply Forall2_cons_inv_l in Hall as (item' & found' & Hitem & Hall & ->).
        exists found'. rewrite <- app_assoc.
        assert (item' = item) as -> by congruence. done.
    + split; [discriminate|].
      intros (found & _ & Hall).
      apply Forall2_cons_inv_l in Hall as (item' & _ & Hitem & _).
      congruence.
Qed.

(** X1: a selection that is not empty succeeds exactly when every name is
    defined, and then gives the styles of the names in the order of the
    selection, a name given twice giving its style twice. *)
Theorem select_styles_named configuration style chosen :
  style <> [] ->
  select_styles configuration style = Return chosen <->
  Forall2 (fun name item => styles configuration !! name = Some item)
          style chosen.
Proof.
  intros Hstyle. unfold select_styles.
  destruct style as [|name style]; [done|].
  rewrite named_styles_returns. split.
  - by intros (found & -> & Hall).
  - intros Hall. by exists chosen.
Qed.


(** X3: a selection that succeeds gives one style when no name was given
    and one style per name otherwise, so never an empty list of styles. *)
Theorem select_styles_length configuration style chosen :
  select_styles configuration style = Return chosen ->
  length chosen = Nat.max 1 (length style) /\ chosen <> [].
Proof.
  intros Hselect.
  assert (Hlength : length chosen = Nat.max 1 (length style)).
  { destruct style as [|name style].
    - unfold select_styles in Hselect.
      destruct (Nat.eqb_spec (size (styles configuration)) 1) as [Hsize|];
        [|discriminate].
      injection Hselect as <-. simpl.
      by rewrite length_fmap, length_map_to_list.
    - apply select_styles_named in Hselect; [|done].
      apply Forall2_length in Hselect. rewrite <- Hselect. simpl. lia. }
  split; [done|]. intros ->. simpl in Hlength. lia.
Qed.

Lemma select_styles_named_witness :
  ["c"; "fortran"; "c"] <> [] /\
  Forall2 (fun name item => styles Example.two_styles !! name = Some item)
          ["c"; "fortran"; "c"]
          [Example.c_style; Example.fortran; Example.c_style] /\
  select_styles Example.two_styles ["c"; "fortran"; "c"]
  = Return [Example.c_style; Example.fortran; Example.c_style].
Proof.
  assert (Hstyle : ["c"; "fortran"; "c"] <> []) by discriminate.
  assert (Hall : Forall2
            (fun name item => styles Example.two_styles !! name = Some item)
            ["c"; "fortran"; "c"]
            [Example.c_style; Example.fortran; Example.c_style])
    by (repeat constructor).
  split; [exact Hstyle|]. split; [exact Hall|].
  exact (proj2 (select_styles_named Example.two_styles ["c"; "fortran"; "c"]
                  [Example.c_style; Example.fortran; Example.c_style]
                  Hstyle) Hall).
Defined.


Lemma select_styles_length_witness :
  select_styles Example.one_style [] = Return [Example.fortran] /\
  length [Example.fortran] = Nat.max 1 (length (@nil string)) /\
  [Example.fortran] <> [].
Proof.
  assert (Hselect : select_styles Example.one_style []
                    = Return [Example.fortran]) by reflexivity.
  split; [exact Hselect|].
  exact (select_styles_length Example.one_style [] [Example.fortran]
           Hselect).
Defined.

Section Further.

Context (host : Host).

(** ** Order of the traversal *)

Lemma next_level_cons hot_extensions file_object queue :
  next_level host hot_extensions (file_object :: queue)
  = (if is_dir host file_object
     then List.filter (wanted host hot_extensions)
                      (iterdir host file_object)
     else [])
    ++ next_level host hot_extensions queue.
Proof. reflexivity. Qed.

Lemma work_list_level engine registered hot_extensions :
  forall first fuel second issues found remaining calls,
    work_list host fuel engine registered hot_extensions
      (first ++ second) issues
    = Some (Return found, remaining, calls) ->
    exists here later,
      work_list host fuel engine registered hot_extensions
        (second ++ next_level host hot_extensions first) (issues ++ here)
      = Some (Return found, remaining, later) /\
      calls = List.map (visit_event host) first ++ later.
Proof.
  induction first as [|file_object first IH];
    intros fuel second issues found remaining calls Hwork.
  - exists [], calls. simpl. by rewrite !app_nil_r.
  - destruct fuel as [|fuel]; [discriminate|].
    rewrite next_level_cons, map_cons. unfold visit_event at 1.
    simpl in Hwork. revert Hwork.
    destruct (is_dir host file_object) eqn:Hdir.
    + destruct (work_list host fuel _ _ _ _ issues)
        as [[[outcome remaining'] calls']|] eqn:Hrec; [|discriminate].
      intros [= -> <- <-]. rewrite <- app_assoc in Hrec.
      destruct (IH _ _ _ _ _ _ Hrec) as (here & later & Hnext & ->).
      exists here, later. split; [|done].
      rewrite <- app_assoc in Hnext.
      exact (work_list_more_fuel host _ _ _ fuel (S fuel) _ _ _
               (Nat.le_succ_diag_r fuel) Hnext).
    + destruct (engine_check host engine registered file_object)
        as [checked|e]; [|discriminate].
      destruct (work_list host fuel _ _ _ _ (issues ++ checked))
        as [[[outcome remaining'] calls']|] eqn:Hrec; [|discriminate].
      intros [= -> <- <-].
      destruct (IH _ _ _ _ _ _ Hrec) as (here & later & Hnext & ->).
      exists (checked ++ here), later. split; [|done].
      rewrite <- app_assoc in Hnext.
      exact (work_list_more_fuel host _ _ _ fuel (S fuel) _ _ _
               (Nat.le_succ_diag_r fuel) Hnext).
Qed.

(** X4: the traversal is breadth first.  A call of [__process] that
    returns has first dealt with every candidate, one call per candidate in
    list order (a path listed twice is dealt with twice), then with the
    wanted entries of the candidate directories, in the order of the
    directories and of their listings, and only then with anything found
    deeper. *)
Theorem process_breadth_first fuel candidates chosen w issues w' :
  process host fuel candidates chosen w = Some (Return issues, w') ->
  exists later,
    log w'
    = log w
      ++ NewCheckEngine chosen
         :: List.map (visit_event host) (default [] (lists w !! candidates))
      ++ List.map (visit_event host)
           (next_level host (dom (extensions w))
                       (default [] (lists w !! candidates)))
      ++ later.
Proof.
  intros (calls & Hwork & ->)%process_returns. simpl.
  rewrite <- (app_nil_r (default [] (lists w !! candidates))) in Hwork.
  apply work_list_level in Hwork as (here & calls1 & Hwork & ->).
  simpl in Hwork.
  rewrite <- (app_nil_r (next_level _ _ _)) in Hwork.
  apply work_list_level in Hwork as (here' & later & _ & ->).
  by exists later.
Qed.

(** ** Failing runs *)

Lemma add_extension_spec extension pipe w :
  add_extension host extension pipe w
  = Some (match unknown_key host pipe with
          | Some key => Raise (UnknownKeyError key)
          | None => Return tt
          end,
          mkWorld (match unknown_key host pipe with
                   | Some _ => extensions w
                   | None => <[extension := pipe]> (extensions w)
                   end)
                  (lists w) (log w ++ [AddExtension extension pipe])).
Proof.
  unfold add_extension, bind, emit, raise.
  by destruct (unknown_key host pipe).
Qed.

Lemma registers_only_add_extension extension pipe :
  registers_only (add_extension host extension pipe).
Proof.
  intros w. rewrite add_extension_spec.
  eexists _, _, [AddExtension extension pipe]. by repeat split.
Qed.

Lemma registers_only_then (m k : M unit) :
  registers_only m -> registers_only k -> registers_only (m ;; k).
Proof.
  intros Hm Hk w. unfold bind.
  destruct (Hm w) as ([[]|e] & w1 & events1 & -> & Hlists1 & Hlog1 & Hreg1).
  - destruct (Hk w1) as (outcome & w2 & events2 & -> & Hlists2 & Hlog2 & Hreg2).
    exists outcome, w2, (events1 ++ events2). repeat split.
    + congruence.
    + by rewrite Hlog2, Hlog1, <- app_assoc.
    + by rewrite forallb_app, Hreg1, Hreg2.
  - by exists (Raise e), w1, events1.
Qed.

Lemma registers_only_for_each {A} (xs : list A) (body : A -> M unit) :
  (forall x, registers_only (body x)) -> registers_only (for_each xs body).
Proof.
  intros Hbody. induction xs as [|x xs IH]; simpl.
  - intros w. exists (Return tt), w, []. by rewrite app_nil_r.
  - by apply registers_only_then.
Qed.

Lemma registers_only_register_pipelines configuration map_extension :
  registers_only (register_pipelines host configuration map_extension).
Proof.
  unfold register_pipelines. apply registers_only_then.
  - apply registers_only_for_each. intros item.
    apply registers_only_add_extension.
  - apply registers_only_for_each. intros mapping w.
    unfold bind, lift.
    destruct (parse_pipe_description mapping) as [item|e].
    + apply registers_only_add_extension.
    + exists (Raise e), w, []. by rewrite app_nil_r.
Qed.

(** X5: when the registration of a pipeline fails, [perform] raises that
    error before it constructs the engine: what it has logged are
    registrations only, so no file has been checked and nothing printed,
    and the candidate list is as it was. *)
Theorem perform_registration_error fuel configuration source style
    map_extension verbose w chosen e w1 :
  select_styles configuration style = Return chosen ->
  register_pipelines host configuration map_extension w
  = Some (Raise e, w1) ->
  perform host fuel configuration source style map_extension verbose w
  = Some (Raise e, w1) /\
  lists w1 = lists w /\
  exists events,
    log w1 = log w ++ events /\ forallb is_registration events = true.
Proof.
  intros Hselect Hreg. split.
  - unfold perform.
    destruct (Nat.eqb_spec (size (styles configuration)) 0) as [Hsize|_].
    + apply map_size_empty_iff in Hsize.
      destruct style as [|name style].
      * unfold select_styles in Hselect. rewrite Hsize in Hselect.
        discriminate.
      * apply select_styles_named in Hselect; [|done].
        apply Forall2_cons_inv_l in Hselect as (item & _ & Hitem & _).
        by rewrite Hsize in Hitem.
    + unfold bind at 1. unfold lift at 1. rewrite Hselect.
      unfold bind at 1. by rewrite Hreg.
  - destruct (registers_only_register_pipelines configuration map_extension w)
      as (outcome & w2 & events & Hrun & Hlists & Hlog & Hevents).
    rewrite Hreg in Hrun. injection Hrun as <- <-.
    split; [done|]. by exists events.
Qed.

(** X6: a call of [perform] that raises, whatever the error and wherever
    it comes from, has printed nothing: the issues found before the error
    are not reported. *)
Theorem perform_raise_prints_nothing fuel configuration source style
    map_extension verbose w e w' :
  perform host fuel configuration source style map_extension verbose w
  = Some (Raise e, w') ->
  exists events,
    log w' = log w ++ events /\
    forallb (fun ev => negb (is_print ev)) events = true.
Proof.
  unfold perform.
  destruct (Nat.eqb (size (styles configuration)) 0).
  { intros [= <- <-]. exists []. by rewrite app_nil_r. }
  unfold bind at 1. unfold lift at 1.
  destruct (select_styles configuration style) as [chosen|e'].
  2: { intros [= <- <-]. exists []. by rewrite app_nil_r. }
  unfold bind at 1.
  destruct (registers_only_register_pipelines configuration map_extension w)
    as (outcome & w1 & events1 & -> & _ & Hlog1 & Hreg1%registration_no_print).
  destruct outcome as [[]|e'].
  2: { intros [= <- <-]. by exists events1. }
  unfold bind at 1. rewrite process_spec.
  destruct chosen as [|first others].
  { intros [= <- <-]. simpl. exists (events1 ++ [NewCheckEngine []]).
    split; [by rewrite Hlog1, <- app_assoc|].
    by rewrite forallb_app, Hreg1. }
  destruct (work_list host fuel _ _ _ _ _)
    as [[[[found|e'] remaining] calls]|] eqn:Hwork; [| |discriminate].
  { unfold bind at 1. rewrite report_spec. discriminate. }
  intros [= <- <-]. simpl.
  exists (events1 ++ NewCheckEngine (first :: others) :: calls).
  split; [by rewrite Hlog1, <- app_assoc|].
  rewrite forallb_app, Hreg1. simpl.
  eapply visit_no_print, work_list_calls, Hwork.
Qed.

(** ** Calling [perform] again *)

Lemma for_each_anywhere {A} (body : A -> M unit) (xs : list A) :
  (forall x w w1 w2, body x w = Some (Return tt, w1) ->
     exists w3, body x w2 = Some (Return tt, w3)) ->
  forall w w1 w2,
    for_each xs body w = Some (Return tt, w1) ->
    exists w3, for_each xs body w2 = Some (Return tt, w3).
Proof.
  intros Hbody. induction xs as [|x xs IH]; intros w w1 w2; simpl.
  - intros _. by eexists.
  - unfold bind.
    destruct (body x w) as [[[[]|e] wa]|] eqn:Hrun; try discriminate.
    intros Hrest. destruct (Hbody x w wa w2 Hrun) as [wb ->].
    eapply IH, Hrest.
Qed.

Lemma add_extension_anywhere extension pipe w w1 w2 :
  add_extension host extension pipe w = Some (Return tt, w1) ->
  exists w3, add_extension host extension pipe w2 = Some (Return tt, w3).
Proof.
  rewrite !add_extension_spec.
  destruct (unknown_key host pipe); [discriminate|]. by eexists.
Qed.

Lemma register_pipelines_anywhere configuration map_extension w w1 w2 :
  register_pipelines host configuration map_extension w
  = Some (Return tt, w1) ->
  exists w3,
    register_pipelines host configuration map_extension w2
    = Some (Return tt, w3).
Proof.
  unfold register_pipelines, bind.
  destruct (for_each (file_pipes configuration) _ w)
    as [[[[]|e] wa]|] eqn:Hfile; try discriminate.
  intros Hcli.
  destruct (for_each_anywhere
              (fun item => add_extension host item.1 item.2) _
              (fun item => add_extension_anywhere item.1 item.2)
              w wa w2 Hfile) as [wb ->].
  refine (for_each_anywhere _ _ _ wa w1 wb Hcli).
  intros mapping wc wd we. unfold bind, lift.
  destruct (parse_pipe_description mapping) as [item|e]; [|discriminate].
  apply add_extension_anywhere.
Qed.

Lemma store_again l contents heap :
  store l contents (store l contents heap) = store l contents heap.
Proof.
  unfold store. destruct (heap !! l) eqn:Hl.
  - by rewrite lookup_insert_eq, insert_insert_eq.
  - by rewrite Hl.
Qed.

(** X7: [perform] uses up the list it is given.  After a call that
    returned, a second call with the same list object, configuration and
    mappings registers the pipelines once more, constructs an engine,
    checks no file and returns no issue; it prints [Found 0 issue] if
    verbose and nothing otherwise. *)
Theorem perform_twice fuel configuration source style map_extension verbose
    w issues w' :
  perform host fuel configuration source style map_extension verbose w
  = Some (Return issues, w') ->
  forall fuel' verbose',
    exists chosen items w'',
      perform host fuel' configuration source style map_extension verbose'
        w'
      = Some (Return [], w'') /\
      lists w'' = lists w' /\
      log w''
      = log w' ++ List.map registration (file_pipes configuration ++ items)
        ++ NewCheckEngine chosen
           :: (if verbose' then [Print Stdout "Found 0 issue"] else []).
Proof.
  intros Hfirst fuel' verbose'.
  pose proof Hfirst as
    (chosen & items & calls & Hselect & Hparsed & _ & ->)%perform_returns.
  unfold perform in Hfirst |- *.
  destruct (Nat.eqb (size (styles configuration)) 0); [discriminate|].
  unfold bind at 1 in Hfirst. unfold lift at 1 in Hfirst.
  unfold bind at 1. unfold lift at 1. rewrite Hselect in Hfirst |- *.
  unfold bind at 1 in Hfirst. unfold bind at 1.
  destruct (register_pipelines host configuration map_extension w)
    as [[[[]|e] w1]|] eqn:Hreg; try discriminate.
  clear Hfirst.
  match goal with
  | |- context [register_pipelines _ _ _ ?world] =>
      destruct (register_pipelines_anywhere _ _ _ _ world Hreg)
        as [w3 Hagain]
  end.
  rewrite Hagain.
  apply register_pipelines_returns in Hagain as (items' & Hparsed' & ->).
  rewrite Hparsed in Hparsed'. apply map_return_inj in Hparsed' as <-.
  unfold bind at 1. rewrite process_spec. simpl.
  destruct (select_styles_length _ _ _ Hselect) as [_ Hchosen].
  destruct chosen as [|first others]; [done|].
  rewrite store_empty, work_list_nil.
  unfold bind at 1. rewrite report_spec. unfold ret. simpl.
  exists (first :: others), items. eexists. split; [reflexivity|]. simpl.
  split; [apply store_again|].
  rewrite List.map_app, <- !app_assoc. simpl.
  rewrite <- !app_assoc. simpl. unfold report_events. simpl.
  by destruct verbose'.
Qed.

(** ** The phases of a run *)

Lemma report_events_print issues verbose :
  forallb is_print (report_events host issues verbose) = true.
Proof.
  unfold report_events. rewrite forallb_app. apply andb_true_iff. split.
  - by induction issues.
  - by destruct (Nat.ltb 0 (length issues) || verbose).
Qed.

(** X8: a call of [perform] that returns has gone through four phases in
    this order: the registrations, the construction of one engine from the
    selected styles, the descents and checks, the prints.  So every
    pipeline is registered before the first directory is listed, and every
    file is checked before the first issue is printed. *)
Theorem perform_phases fuel configuration source style map_extension verbose
    w issues w' :
  perform host fuel configuration source style map_extension verbose w
  = Some (Return issues, w') ->
  exists chosen registrations calls prints,
    select_styles configuration style = Return chosen /\
    log w'
    = log w ++ registrations ++ NewCheckEngine chosen :: calls ++ prints /\
    forallb is_registration registrations = true /\
    forallb is_visit calls = true /\
    forallb is_print prints = true.
Proof.
  intros (chosen & items & calls & Hselect & _ & Hwork & ->)%perform_returns.
  exists chosen, (List.map registration (file_pipes configuration ++ items)),
    calls, (report_events host issues verbose).
  split; [done|]. split; [|split; [|split]].
  - simpl. by rewrite List.map_app, <- !app_assoc.
  - apply registrations_only.
  - eapply work_list_calls, Hwork.
  - apply report_events_print.
Qed.

(** ** The ways [main] ends *)

Lemma key_table_none keys get_name :
  key_table keys get_name = None <-> keys = [].
Proof. unfold key_table. by destruct keys. Qed.

(** X9: [main] never returns normally.  A run that comes to an end does
    so in one of five ways: with the [ValueError] of the key tables, when
    there is no parser key or no preprocessor key; with the exit that
    [parse_args] leaves with (a usage error, a call for help); in both
    cases just after the log handler is added and whatever the command
    line says after that; with the error of [load_configuration], once the
    log level is set and before [perform] is called; with the error of
    [perform], passed on unchanged; or with [SystemExit] of 0 or 1. *)
Theorem main_outcome fuel command_line w outcome w' :
  main host fuel command_line w = Some (outcome, w') ->
  ((parser_keys host = [] \/ preprocessor_keys host = []) /\
   outcome = Raise ValueError /\ w' = handler_added w) \/
  (exists tables e,
     help_tables (parser_keys host) (language_name command_line)
       (preprocessor_keys host) (preprocessor_name command_line)
     = Some tables /\
     parse_args command_line tables = Raise e /\
     outcome = Raise e /\ w' = handler_added w) \/
  (exists tables arguments e,
     parse_args command_line tables = Return arguments /\
     load_configuration host (arg_configuration arguments) = Raise e /\
     outcome = Raise e /\ w' = level_set w (arg_verbose arguments)) \/
  (exists tables arguments configuration e,
     parse_args command_line tables = Return arguments /\
     load_configuration host (arg_configuration arguments)
     = Return configuration /\
     perform host fuel configuration (arg_source arguments)
       (arg_style arguments) (arg_map_extension arguments)
       (arg_verbose arguments) (level_set w (arg_verbose arguments))
     = Some (Raise e, w') /\
     outcome = Raise e) \/
  (exists code, outcome = Raise (SystemExit code) /\ code <= 1).
Proof.
  rewrite main_spec.
  destruct (help_tables _ _ _ _) as [tables|] eqn:Htables.
  - destruct (parse_args command_line tables) as [arguments|e] eqn:Hparse.
    + destruct (load_configuration host (arg_configuration arguments))
        as [configuration|e] eqn:Hload.
      * destruct (perform host fuel configuration _ _ _ _ _)
          as [[[issues|e] w1]|] eqn:Hperform; [| |discriminate].
        -- intros [= <- <-]. do 4 right.
           eexists. split; [reflexivity|]. destruct issues; lia.
        -- intros [= <- <-]. do 3 right. left.
           by exists tables, arguments, configuration, e.
      * intros [= <- <-]. do 2 right. left.
        by exists tables, arguments, e.
    + intros [= <- <-]. right. left. by exists tables, e.
  - intros [= <- <-]. left. split; [|done].
    unfold help_tables in Htables.
    destruct (key_table (parser_keys host) _) as [parsers|] eqn:Hparsers.
    + destruct (key_table (preprocessor_keys host) _) as [preproc|]
        eqn:Hpreproc; [discriminate|].
      right. by eapply key_table_none.
    + left. by eapply key_table_none.
Qed.

(** ** Runs come to an end *)

(** X12: on a file system with a bound on what lies below each directory,
    whatever the registered extensions, a call of [perform] with fuel for
    every path below the candidates comes to an end: it returns or it
    raises. *)
Theorem perform_terminates fuel configuration source style map_extension
    verbose w weight :
  (forall hot_extensions, bounded_below host hot_extensions weight) ->
  needed_fuel weight (default [] (lists w !! source)) <= fuel ->
  exists outcome w',
    perform host fuel configuration source style map_extension verbose w
    = Some (outcome, w').
Proof.
  intros Hbound Hfuel. unfold perform.
  destruct (Nat.eqb (size (styles configuration)) 0); [by eexists _, _|].
  unfold bind at 1. unfold lift at 1.
  destruct (select_styles configuration style) as [chosen|e];
    [|by eexists _, _].
  unfold bind at 1.
  destruct (registers_only_register_pipelines configuration map_extension w)
    as (outcome & w1 & events & -> & Hlists & _ & _).
  destruct outcome as [[]|e]; [|by eexists _, _].
  unfold bind at 1. rewrite process_spec.
  destruct chosen as [|first others]; [by eexists _, _|].
  rewrite Hlists.
  destruct (work_list_terminates host (first :: others) (extensions w1)
              (dom (extensions w1)) weight (Hbound _) fuel _ [] Hfuel)
    as [[[[found|e] remaining] calls] ->]; [|by eexists _, _].
  unfold bind at 1. rewrite report_spec. by eexists _, _.
Qed.

End Further.

(** ** The key tables of the help text *)

Lemma string_length_append (s t : string) :
  String.length (s +:+ t) = String.length s + String.length t.
Proof. induction s as [|c s IH]; simpl; [done|by rewrite IH]. Qed.

Lemma spaces_length n : String.length (spaces n) = n.
Proof. induction n as [|n IH]; simpl; [done|by rewrite IH]. Qed.

Lemma foldl_max_bound (l : list nat) :
  forall a,
    a <= foldl Nat.max a l /\
    Forall (fun n => n <= foldl Nat.max a l) l /\
    (foldl Nat.max a l = a \/ foldl Nat.max a l ∈ l).
Proof.
  induction l as [|n l IH]; intros a; simpl.
  - split; [lia|]. split; [constructor|by left].
  - destruct (IH (Nat.max a n)) as (Hge & Hall & Hin).
    split; [lia|]. split; [constructor; [lia|done]|].
    destruct Hin as [Hin|Hin].
    + destruct (Nat.max_spec a n) as [[_ Hmax]|[_ Hmax]].
      * right. rewrite Hin, Hmax. left.
      * left. by rewrite Hin.
    + right. by right.
Qed.

Lemma max_key_len_longest keys width :
  max_key_len keys = Some width ->
  Forall (fun key => String.length key <= width) keys /\
  exists key, key ∈ keys /\ String.length key = width.
Proof.
  destruct keys as [|first rest]; [discriminate|]. intros [= <-].
  destruct (foldl_max_bound (List.map String.length rest)
              (String.length first)) as (Hge & Hall & Hin).
  split.
  - constructor; [done|].
    rewrite Forall_forall in Hall. apply Forall_forall. intros key Hkey.
    apply Hall, list_elem_of_In, in_map, list_elem_of_In, Hkey.
  - destruct Hin as [Hin|Hin].
    + exists first. split; [left|done].
    + apply list_elem_of_In, in_map_iff in Hin as (key & Hlen & Hkey).
      exists key. split; [right; by apply list_elem_of_In|done].
Qed.

(** X10: in a key table every line is its key, spaces, the separator and
    the name of the key, and the separator starts in the same column in
    every line: the length of the longest key, which is followed by no
    space at all. *)
Theorem key_table_aligned keys get_name lines :
  key_table keys get_name = Some lines ->
  exists width,
    max_key_len keys = Some width /\
    (exists key, key ∈ keys /\ String.length key = width) /\
    length lines = length keys /\
    forall i key,
      keys !! i = Some key ->
      lines !! i
      = Some ((key +:+ spaces (width - String.length key))
              +:+ " - " +:+ get_name key) /\
      String.length (key +:+ spaces (width - String.length key)) = width.
Proof.
  unfold key_table.
  destruct (max_key_len keys) as [width|] eqn:Hwidth; [|discriminate].
  intros [= <-]. exists width.
  destruct (max_key_len_longest _ _ Hwidth) as [Hall Hlongest].
  split; [done|]. split; [done|]. split; [apply length_map|].
  intros i key Hkey. split.
  - change (List.map ?f keys) with (f <$> keys).
    by rewrite list_lookup_fmap, Hkey.
  - rewrite string_length_append, spaces_length.
    rewrite Forall_forall in Hall.
    specialize (Hall key (list_elem_of_lookup_2 _ _ _ Hkey)). simpl in Hall.
    lia.
Qed.

(** ** The further properties on the example hosts *)

Lemma process_breadth_first_witness :
  process Example.host 5 0 [Example.fortran] Example.ready
  = Some (Return Example.found, Example.processed) /\
  exists later,
    log Example.processed
    = log Example.ready
      ++ NewCheckEngine [Example.fortran]
         :: List.map (visit_event Example.host)
              (default [] (lists Example.ready !! 0))
      ++ List.map (visit_event Example.host)
           (next_level Example.host (dom (extensions Example.ready))
                       (default [] (lists Example.ready !! 0)))
      ++ later.
Proof.
  assert (Hrun : process Example.host 5 0 [Example.fortran] Example.ready
                 = Some (Return Example.found, Example.processed))
    by (vm_compute; reflexivity).
  split; [exact Hrun|].
  exact (process_breadth_first Example.host 5 0 [Example.fortran]
           Example.ready Example.found Example.processed Hrun).
Defined.

Lemma perform_registration_error_witness :
  select_styles Example.one_style [] = Return [Example.fortran] /\
  register_pipelines Example.host Example.one_style ["f90:nosuch"]
    (Example.world ["src"])
  = Some (Raise (UnknownKeyError "nosuch"), Example.unregistered) /\
  perform Example.host 5 Example.one_style 0 [] ["f90:nosuch"] true
    (Example.world ["src"])
  = Some (Raise (UnknownKeyError "nosuch"), Example.unregistered) /\
  lists Example.unregistered = lists (Example.world ["src"]) /\
  exists events,
    log Example.unregistered = log (Example.world ["src"]) ++ events /\
    forallb is_registration events = true.
Proof.
  assert (Hselect : select_styles Example.one_style []
                    = Return [Example.fortran]) by reflexivity.
  assert (Hreg : register_pipelines Example.host Example.one_style
                   ["f90:nosuch"] (Example.world ["src"])
                 = Some (Raise (UnknownKeyError "nosuch"),
                         Example.unregistered))
    by (vm_compute; reflexivity).
  split; [exact Hselect|]. split; [exact Hreg|].
  exact (perform_registration_error Example.host 5 Example.one_style 0 []
           ["f90:nosuch"] true (Example.world ["src"]) [Example.fortran]
           (UnknownKeyError "nosuch") Example.unregistered Hselect Hreg).
Defined.

Lemma perform_raise_prints_nothing_witness :
  perform Example.strict_host 5 Example.one_style 0 [] [] true
    (Example.world ["src/a.f90"; "README"; "src/b.f90"])
  = Some (Raise (CheckError "README" "no pipeline"), Example.refused) /\
  exists events,
    log Example.refused
    = log (Example.world ["src/a.f90"; "README"; "src/b.f90"]) ++ events /\
    forallb (fun ev => negb (is_print ev)) events = true.
Proof.
  assert (Hrun : perform Example.strict_host 5 Example.one_style 0 [] []
                   true (Example.world ["src/a.f90"; "README"; "src/b.f90"])
                 = Some (Raise (CheckError "README" "no pipeline"),
                         Example.refused))
    by (vm_compute; reflexivity).
  split; [exact Hrun|].
  exact (perform_raise_prints_nothing Example.strict_host 5
           Example.one_style 0 [] [] true
           (Example.world ["src/a.f90"; "README"; "src/b.f90"])
           (CheckError "README" "no pipeline") Example.refused Hrun).
Defined.

Lemma perform_twice_witness :
  perform Example.host 5 Example.one_style 0 [] ["f90:plain"] true
    (Example.world ["src"; "README"])
  = Some (Return Example.found, Example.performed) /\
  exists chosen items w'',
    perform Example.host 0 Example.one_style 0 [] ["f90:plain"] true
      Example.performed
    = Some (Return [], w'') /\
    lists w'' = lists Example.performed /\
    log w''
    = log Example.performed
      ++ List.map registration (file_pipes Example.one_style ++ items)
      ++ NewCheckEngine chosen
         :: (if true then [Print Stdout "Found 0 issue"] else []).
Proof.
  assert (Hrun : perform Example.host 5 Example.one_style 0 []
                   ["f90:plain"] true (Example.world ["src"; "README"])
                 = Some (Return Example.found, Example.performed))
    by (vm_compute; reflexivity).
  split; [exact Hrun|].
  exact (perform_twice Example.host 5 Example.one_style 0 [] ["f90:plain"]
           true (Example.world ["src"; "README"]) Example.found
           Example.performed Hrun 0 true).
Defined.

Lemma perform_phases_witness :
  perform Example.host 5 Example.one_style 0 [] ["f90:plain"] true
    (Example.world ["src"; "README"])
  = Some (Return Example.found, Example.performed) /\
  exists chosen registrations calls prints,
    select_styles Example.one_style [] = Return chosen /\
    log Example.performed
    = log (Example.world ["src"; "README"])
      ++ registrations ++ NewCheckEngine chosen :: calls ++ prints /\
    forallb is_registration registrations = true /\
    forallb is_visit calls = true /\
    forallb is_print prints = true.
Proof.
  assert (Hrun : perform Example.host 5 Example.one_style 0 []
                   ["f90:plain"] true (Example.world ["src"; "README"])
                 = Some (Return Example.found, Example.performed))
    by (vm_compute; reflexivity).
  split; [exact Hrun|].
  exact (perform_phases Example.host 5 Example.one_style 0 [] ["f90:plain"]
           true (Example.world ["src"; "README"]) Example.found
           Example.performed Hrun).
Defined.

Lemma main_outcome_witness :
  main Example.host 5 Example.command_line (Example.world ["README"])
  = Some (Raise (SystemExit 1), Example.finished) /\
  exists code,
    @Raise unit (SystemExit 1) = Raise (SystemExit code) /\ code <= 1.
Proof.
  assert (Hrun : main Example.host 5 Example.command_line
                   (Example.world ["README"])
                 = Some (Raise (SystemExit 1), Example.finished))
    by (vm_compute; reflexivity).
  split; [exact Hrun|].
  destruct (main_outcome Example.host 5 Example.command_line
              (Example.world ["README"]) (Raise (SystemExit 1))
              Example.finished Hrun)
    as [(_ & Hvalue & _)
       |[(tables & e & _ & Hparse & _)
        |[(tables & arguments & e & _ & _ & _ & Hworld)
         |[(tables & arguments & configuration & e & Hparse & Hload
            & Hperform & Herror)
          |Hexit]]]].
  - discriminate Hvalue.
  - discriminate Hparse.
  - exfalso. apply (f_equal (fun world => length (log world))) in Hworld.
    vm_compute in Hworld. discriminate Hworld.
  - exfalso. injection Hparse as <-. injection Hload as <-.
    injection Herror as <-. vm_compute in Hperform. discriminate Hperform.
  - exact Hexit.
Defined.

Lemma key_table_aligned_witness :
  key_table ["fortran"; "c"; "plain"] Example.display_name
  = Some ["fortran - Fortran"; "c       - C"; "plain   - Plain text"] /\
  exists width,
    max_key_len ["fortran"; "c"; "plain"] = Some width /\
    (exists key, key ∈ ["fortran"; "c"; "plain"]
                 /\ String.length key = width) /\
    length ["fortran - Fortran"; "c       - C"; "plain   - Plain text"]
    = length ["fortran"; "c"; "plain"] /\
    forall i key,
      ["fortran"; "c"; "plain"] !! i = Some key ->
      ["fortran - Fortran"; "c       - C"; "plain   - Plain text"] !! i
      = Some ((key +:+ spaces (width - String.length key))
              +:+ " - " +:+ Example.display_name key) /\
      String.length (key +:+ spaces (width - String.length key)) = width.
Proof.
  assert (Htable : key_table ["fortran"; "c"; "plain"] Example.display_name
                   = Some ["fortran - Fortran"; "c       - C";
                           "plain   - Plain text"]) by reflexivity.
  split; [exact Htable|].
  exact (key_table_aligned ["fortran"; "c"; "plain"] Example.display_name
           _ Htable).
Defined.

Lemma example_bounded_below_all hot_extensions :
  bounded_below Example.host hot_extensions Example.weight_all.
Proof.
  intros d Hdir. apply String.eqb_eq in Hdir as ->. simpl.
  repeat (destruct (wanted Example.host hot_extensions _); simpl);
    vm_compute; lia.
Defined.

Lemma perform_terminates_witness :
  (forall hot_extensions,
     bounded_below Example.host hot_extensions Example.weight_all) /\
  needed_fuel Example.weight_all
    (default [] (lists (Example.world ["src"; "README"]) !! 0)) <= 5 /\
  exists outcome w',
    perform Example.host 5 Example.one_style 0 [] ["f90:plain"] true
      (Example.world ["src"; "README"])
    = Some (outcome, w').
Proof.
  assert (Hfuel : needed_fuel Example.weight_all
            (default [] (lists (Example.world ["src"; "README"]) !! 0)) <= 5)
    by (vm_compute; lia).
  split; [exact example_bounded_below_all|]. split; [exact Hfuel|].
  exact (perform_terminates Example.host 5 Example.one_style 0 []
           ["f90:plain"] true (Example.world ["src"; "README"])
           Example.weight_all example_bounded_below_all Hfuel).
Defined.
